(** * scripts/build_data.py: the derivation pipeline, embedded and verified

    The script reads a UDisc scorecard export, keeps the complete 18-hole
    rounds of the tracked players, tags every round with its season, and
    derives the ladder, handicap and player tables.

    Conventions of the embedding:
    - Python [int] is [Z]; Python [float] is an exact rational [Q], and a
      pandas NaN is the absence of a number ([None] / [NaN]);
    - Python [str] is [string];
    - a Python exception is the [Raise] branch of [result];
    - a DataFrame is the list of its rows, a row a record of its columns. *)

From Stdlib Require Import ZArith QArith Qround Qabs List String Ascii Bool.
From Stdlib Require Import Lia Lqa Permutation Sorted DecimalString DecimalZ.
From Stdlib Require Import DecimalPos Setoid Morphisms.
Import ListNotations.

Local Open Scope string_scope.
Local Open Scope Z_scope.

(* ------------------------------------------------------------------ *)
(** ** Exceptions *)

Inductive exn : Type :=
| ValueError
| OverflowError.

Inductive result (A : Type) : Type :=
| Ok (a : A)
| Raise (e : exn).

Arguments Ok {A} a.
Arguments Raise {A} e.

Definition bind {A B : Type} (m : result A) (k : A -> result B) : result B :=
  match m with
  | Ok a => k a
  | Raise e => Raise e
  end.

Notation "x <- m ;; k" := (bind m (fun x => k))
  (at level 61, m at next level, right associativity).

(** [Series.apply] with a function that may raise: the first exception
    aborts the whole traversal. *)
Fixpoint apply_rows {A B : Type} (f : A -> result B) (l : list A)
  : result (list B) :=
  match l with
  | [] => Ok []
  | a :: l' => b <- f a ;; bs <- apply_rows f l' ;; Ok (b :: bs)
  end.

(* ------------------------------------------------------------------ *)
(** ** Strings *)

(** [str(n)] for an [int]. *)
Definition str_int (n : Z) : string := NilZero.string_of_int (Z.to_int n).

(** [s[-k:]]: the last [k] characters, the whole string when it is
    shorter. *)
Definition last_chars (k : nat) (s : string) : string :=
  substring (String.length s - k) k s.

(** [s.zfill(k)] on the digit strings used by [isoformat]. *)
Fixpoint zeros (k : nat) : string :=
  match k with
  | O => EmptyString
  | S k' => String "0" (zeros k')
  end.

Definition zfill (k : nat) (s : string) : string :=
  zeros (k - String.length s) ++ s.

(** Characters removed by [str.strip()] (the ASCII ones). *)
Definition is_space (c : ascii) : bool :=
  let n := nat_of_ascii c in
  (Nat.eqb n 32 || (Nat.leb 9 n && Nat.leb n 13)
   || (Nat.leb 28 n && Nat.leb n 31))%bool.

Fixpoint lstrip (s : string) : string :=
  match s with
  | String c s' => if is_space c then lstrip s' else s
  | EmptyString => EmptyString
  end.

Fixpoint rstrip (s : string) : string :=
  match s with
  | String c s' =>
      match rstrip s' with
      | EmptyString => if is_space c then EmptyString else String c EmptyString
      | t => String c t
      end
  | EmptyString => EmptyString
  end.

Definition strip (s : string) : string := rstrip (lstrip s).

(* ------------------------------------------------------------------ *)
(** ** [datetime.date] *)

Module Date.

Definition MINYEAR : Z := 1.
Definition MAXYEAR : Z := 9999.

Definition _DAYS_IN_MONTH : list Z :=
  [-1; 31; 28; 31; 30; 31; 30; 31; 31; 30; 31; 30; 31].

Definition _DAYS_BEFORE_MONTH : list Z :=
  [-1; 0; 31; 59; 90; 120; 151; 181; 212; 243; 273; 304; 334].

Definition index (l : list Z) (i : Z) : Z := nth (Z.to_nat i) l (-1).

Definition _is_leap (year : Z) : bool :=
  (year mod 4 =? 0) && (negb (year mod 100 =? 0) || (year mod 400 =? 0)).

Definition _days_before_year (year : Z) : Z :=
  let y := year - 1 in
  y * 365 + y / 4 - y / 100 + y / 400.

Definition _days_in_month (year month : Z) : Z :=
  if (month =? 2) && _is_leap year then 29 else index _DAYS_IN_MONTH month.

Definition _days_before_month (year month : Z) : Z :=
  index _DAYS_BEFORE_MONTH month
  + (if (2 <? month) && _is_leap year then 1 else 0).

Definition _ymd2ord (year month day : Z) : Z :=
  _days_before_year year + _days_before_month year month + day.

Definition _DI400Y : Z := Eval cbv in _days_before_year 401.
Definition _DI100Y : Z := Eval cbv in _days_before_year 101.
Definition _DI4Y : Z := Eval cbv in _days_before_year 5.
Definition _MAXORDINAL : Z := Eval cbv in _ymd2ord 9999 12 31.

Definition _ord2ymd (n0 : Z) : Z * Z * Z :=
  let n := n0 - 1 in
  let n400 := n / _DI400Y in
  let n := n mod _DI400Y in
  let year := n400 * 400 + 1 in
  let n100 := n / _DI100Y in
  let n := n mod _DI100Y in
  let n4 := n / _DI4Y in
  let n := n mod _DI4Y in
  let n1 := n / 365 in
  let n := n mod 365 in
  let year := year + n100 * 100 + n4 * 4 + n1 in
  if (n1 =? 4) || (n100 =? 4) then (year - 1, 12, 31)
  else
    let leapyear := (n1 =? 3) && (negb (n4 =? 24) || (n100 =? 3)) in
    let month := Z.shiftr (n + 50) 5 in
    let preceding :=
      index _DAYS_BEFORE_MONTH month
      + (if (2 <? month) && leapyear then 1 else 0) in
    if n <? preceding then
      let month := month - 1 in
      let preceding :=
        preceding
        - (index _DAYS_IN_MONTH month
           + (if (month =? 2) && leapyear then 1 else 0)) in
      (year, month, n - preceding + 1)
    else (year, month, n - preceding + 1).

Record date : Type := mk { year : Z; month : Z; day : Z }.

(** The fields of a [date] object always satisfy [_check_date_fields]. *)
Definition valid (d : date) : bool :=
  (MINYEAR <=? year d) && (year d <=? MAXYEAR)
  && (1 <=? month d) && (month d <=? 12)
  && (1 <=? day d) && (day d <=? _days_in_month (year d) (month d)).

(** The constructor [date(year, month, day)]. *)
Definition new (y m d : Z) : result date :=
  if valid (mk y m d) then Ok (mk y m d) else Raise ValueError.

Definition toordinal (d : date) : Z := _ymd2ord (year d) (month d) (day d).

Definition fromordinal (n : Z) : result date :=
  let '(y, m, d) := _ord2ymd n in new y m d.

(** [weekday()]: Monday is 0, Sunday is 6. *)
Definition weekday (d : date) : Z := (toordinal d + 6) mod 7.

(** [d + timedelta(days=n)]. *)
Definition add_days (d : date) (n : Z) : result date :=
  let o := toordinal d + n in
  if (0 <? o) && (o <=? _MAXORDINAL) then fromordinal o
  else Raise OverflowError.

(** [d1 >= d2]: dates compare as the tuples (year, month, day). *)
Definition geb (d1 d2 : date) : bool :=
  (year d2 <? year d1)
  || ((year d2 =? year d1)
      && ((month d2 <? month d1)
          || ((month d2 =? month d1) && (day d2 <=? day d1)))).

Definition eqb (d1 d2 : date) : bool :=
  (year d1 =? year d2) && (month d1 =? month d2) && (day d1 =? day d2).

(** [isoformat()]: ["%04d-%02d-%02d"]. *)
Definition isoformat (d : date) : string :=
  zfill 4 (str_int (year d)) ++ "-" ++ zfill 2 (str_int (month d))
  ++ "-" ++ zfill 2 (str_int (day d)).

End Date.

(* ------------------------------------------------------------------ *)
(** ** Season classifier *)

Definition first_sunday (year month : Z) : result Date.date :=
  d <- Date.new year month 1 ;;
  let days_until_sun := (6 - Date.weekday d) mod 7 in
  Date.add_days d days_until_sun.

Record season : Type := mkSeason {
  season_type : string;
  season_label : string;
  season_start : string
}.

Definition season_for (d : Date.date) : result season :=
  apr_start <- first_sunday (Date.year d) 4 ;;
  oct_start <- first_sunday (Date.year d) 10 ;;
  if Date.geb d oct_start then
    Ok {| season_type := "Summer";
          season_label := "Summer " ++ str_int (Date.year d) ++ "-"
                          ++ last_chars 2 (str_int (Date.year d + 1));
          season_start := Date.isoformat oct_start |}
  else if Date.geb d apr_start then
    Ok {| season_type := "Winter";
          season_label := "Winter " ++ str_int (Date.year d);
          season_start := Date.isoformat apr_start |}
  else
    prev_oct_start <- first_sunday (Date.year d - 1) 10 ;;
    Ok {| season_type := "Summer";
          season_label := "Summer " ++ str_int (Date.year d - 1) ++ "-"
                          ++ last_chars 2 (str_int (Date.year d));
          season_start := Date.isoformat prev_oct_start |}.

(* ------------------------------------------------------------------ *)
(** ** Config *)

(** [TRACKED_PLAYERS] is a set: membership and [sorted] are its only uses. *)
Definition TRACKED_PLAYERS : list string :=
  ["Armygeddon"; "Jobby"; "Miza"; "Bucis"; "Youare22"].

Definition ALIASES : list (string * string) := [("Misa", "Miza")].

Definition HANDICAP_MIN_ROUNDS : Z := 5.
Definition HANDICAP_WINDOW : Z := 20.
Definition HANDICAP_BEST : Z := 8.
Definition HANDICAP_POINTS_PER_STROKE : Q := 10.
Definition HANDICAP_CAP : Q := 6.
Definition BEST10_COUNT : Z := 10.

(* ------------------------------------------------------------------ *)
(** ** Python and pandas values *)

(** One cell of the frame returned by [pd.read_csv]: missing, a number,
    or text. *)
Inductive cell : Type :=
| NaN
| Num (x : Q)
| Str (s : string).

Definition isna (c : cell) : bool :=
  match c with
  | NaN => true
  | _ => false
  end.

Definition notna (c : cell) : bool := negb (isna c).

(** A float that may be NaN, as a cell. *)
Definition of_float (x : option Q) : cell :=
  match x with
  | Some q => Num q
  | None => NaN
  end.

Record datetime : Type := mkDT {
  dt_date : Date.date;
  hour : Z;
  minute : Z
}.

Definition datetime_isoformat (t : datetime) : string :=
  Date.isoformat (dt_date t) ++ "T" ++ zfill 2 (str_int (hour t)) ++ ":"
  ++ zfill 2 (str_int (minute t)) ++ ":00".

Definition len {A : Type} (l : list A) : Z := Z.of_nat (List.length l).

(** [l[:n]]. *)
Definition take {A : Type} (n : Z) (l : list A) : list A :=
  firstn (Z.to_nat n) l.

(** [sum(l)]: the left fold that starts from 0. *)
Definition sum (l : list Q) : Q := fold_left Qplus l 0%Q.

Definition Qlt_bool (a b : Q) : bool := negb (Qle_bool b a).

(** [min(a, b)] and [max(a, b)] keep the first argument unless the second
    is strictly smaller (larger). *)
Definition py_min (a b : Q) : Q := if Qlt_bool b a then b else a.
Definition py_max (a b : Q) : Q := if Qlt_bool a b then b else a.

(** [max(l)] on a list; [None] stands for the [ValueError] on an empty one,
    which both call sites exclude. *)
Definition max_list (l : list Q) : option Q :=
  match l with
  | [] => None
  | x :: l' => Some (fold_left py_max l' x)
  end.

(** [round(x)] with one argument: to the nearest integer, ties to the even
    one. *)
Definition py_round (x : Q) : Z :=
  let f := Qfloor x in
  match Qcompare (x - inject_Z f) (1 # 2) with
  | Lt => f
  | Gt => f + 1
  | Eq => if Z.even f then f else f + 1
  end.

(** [dict.get(key, default)] on the alias table. *)
Fixpoint dict_get_default (d : list (string * string)) (key default : string)
  : string :=
  match d with
  | [] => default
  | (k, v) :: d' => if String.eqb k key then v else dict_get_default d' key default
  end.

(** [dict.get(key)] on a table of nullable floats: a missing key and a
    stored [None] both read as [None]. *)
Fixpoint dict_get (d : list (string * option Q)) (key : string) : option Q :=
  match d with
  | [] => None
  | (k, v) :: d' => if String.eqb k key then v else dict_get d' key
  end.

Definition isin (x : string) (s : list string) : bool :=
  existsb (String.eqb x) s.

(** [sorted(l)] and [sorted(l, reverse=True)]: stable, so the result is the
    one of insertion from the right with the new element put before its
    equals. *)
Section Sorted.
Context {A : Type} (leb : A -> A -> bool).

Fixpoint insert (x : A) (l : list A) : list A :=
  match l with
  | [] => [x]
  | y :: l' => if leb x y then x :: y :: l' else y :: insert x l'
  end.

Definition sorted (l : list A) : list A := fold_right insert [] l.
End Sorted.

Definition sorted_str : list string -> list string := sorted String.leb.

(** [sorted(l, reverse=True)] on floats. *)
Definition sorted_reverse : list Q -> list Q :=
  sorted (fun x y => Qle_bool y x).

(** [Series.dropna().tolist()]. *)
Fixpoint dropna (l : list (option Q)) : list Q :=
  match l with
  | [] => []
  | Some x :: l' => x :: dropna l'
  | None :: l' => dropna l'
  end.

(* ------------------------------------------------------------------ *)
(** ** Helpers of the script *)

Definition round_half (x : Q) : Q := inject_Z (py_round (x * 2)) / 2.

(* ------------------------------------------------------------------ *)
(** ** The frame *)

(** The columns of the export. *)
Record RawRow : Type := mkRaw {
  PlayerName : cell;
  StartDate : cell;
  EndDate : cell;
  CourseName : cell;
  LayoutName : cell;
  Total : cell;
  RoundRating : cell;
  PlusMinus : option cell;        (* the column named with U+2212 *)
  PlusMinusAscii : option cell;   (* the column named "+/-" *)
  Hole : nat -> cell              (* [Hole i] is the column "Hole{i}" *)
}.

(** A row once the name is canonical and the timestamps are parsed. *)
Record ParsedRow : Type := mkParsed {
  p_raw : RawRow;
  p_PlayerName : string;
  p_StartDT : datetime;
  p_EndDT : datetime
}.

(** A row of the frame with every derived column. *)
Record Row : Type := mkRow {
  raw : RawRow;
  Player : string;
  StartDT : datetime;
  EndDT : datetime;
  RoundRatingNum : option Q;
  IsRated : bool;
  RoundDate : Date.date;
  SeasonType : string;
  SeasonLabel : string;
  CourseKey : string;
  RoundId : string
}.

(** What the script takes from the interpreter and from pandas. *)
Record runtime : Type := mkRuntime {
  (** [hash] on [str]: salted anew by every interpreter process. *)
  hash : string -> Z;
  (** [datetime.strptime(s, "%Y-%m-%d %H%M")]. *)
  strptime : string -> result datetime;
  (** [str] of a number of a numeric column. *)
  str_num : Q -> string;
  (** The number pandas reads in a text, if any. *)
  to_numeric_str : string -> option Q;
  (** [float(s)] on a [str]; [None] is its [ValueError]. *)
  float_str : string -> option Q;
  (** [sort_values("StartDT", ascending=...)]: pandas' default quicksort
      gives no promise on the order of equal keys. *)
  sort_values_StartDT : bool -> list Row -> list Row
}.

(** [a <= b] on timestamps: by the date, and on one day by the clock. *)
Definition datetime_leb (a b : datetime) : bool :=
  if Date.eqb (dt_date a) (dt_date b) then
    (hour a <? hour b) || ((hour a =? hour b) && (minute a <=? minute b))
  else Date.geb (dt_date b) (dt_date a).

(** [DataFrame.groupby(key)]: one group per distinct key, the keys in
    ascending order, every group in the order of the frame. *)
Section GroupBy.
Context {K : Type} (eqb leb : K -> K -> bool) (key : Row -> K).

Fixpoint unique (l : list K) : list K :=
  match l with
  | [] => []
  | k :: l' => k :: filter (fun k' => negb (eqb k k')) (unique l')
  end.

Definition groupby (df : list Row) : list (K * list Row) :=
  map (fun k => (k, filter (fun r => eqb (key r) k) df))
      (sorted leb (unique (map key df))).
End GroupBy.

(** Keys of [groupby(["SeasonLabel", "PlayerName"])]: tuples, compared
    component by component. *)
Definition pair_eqb (a b : string * string) : bool :=
  String.eqb (fst a) (fst b) && String.eqb (snd a) (snd b).

Definition pair_leb (a b : string * string) : bool :=
  if String.eqb (fst a) (fst b) then String.leb (snd a) (snd b)
  else String.leb (fst a) (fst b).

(** The four documents. *)
Record RoundRecord : Type := mkRound {
  round_id_ : string;
  player : string;
  course : string;
  layout : string;
  course_key_ : string;
  start : string;
  end_ : string;
  total : option Q;
  plus_minus : string;
  rating : option Q;
  is_rated : bool;
  r_season_type : string;
  r_season_label : string
}.

Record LadderEntry : Type := mkLadder {
  l_season_label : string;
  l_player : string;
  season_total_best10 : option Q;
  rated_rounds_in_season : Z;
  counted_rounds : Z;
  best_round_rating : option Q
}.

Record HandicapEntry : Type := mkHandicap {
  h_player : string;
  handicap : option Q;
  form_index : option Q;
  reference_rating : option Q;
  method : string;
  status : string
}.

Record PlayerSummary : Type := mkSummary {
  s_player : string;
  s_rounds : Z;
  rated_rounds : Z;
  best_rating : option Q;
  avg_rating : option Q
}.

Record outputs : Type := mkOutputs {
  rounds : list RoundRecord;
  ladders : list LadderEntry;
  handicaps : list HandicapEntry;
  players : list PlayerSummary
}.

Definition STATUS_OK : string := "OK".
Definition STATUS_INSUFFICIENT : string :=
  "No handicap yet (insufficient rated rounds)".

(** The f-string of the [method] field; [{10.0:g}] prints as [10]. *)
Definition METHOD : string :=
  "best " ++ str_int HANDICAP_BEST ++ " of last " ++ str_int HANDICAP_WINDOW
  ++ " rated rounds; " ++ "10" ++ " pts = 1 stroke".

Section Pipeline.
Variable rt : runtime.

(** [Series.astype(str)] and [str(x)] on a cell. *)
Definition astype_str (c : cell) : string :=
  match c with
  | NaN => "nan"
  | Num x => str_num rt x
  | Str s => s
  end.

Definition parse_udisc_dt (s : cell) : result datetime :=
  let s := strip (astype_str s) in
  strptime rt s.

(** [float(x)]; a NaN has no number here, and [safe_float] never asks
    for one. *)
Definition py_float (x : cell) : result Q :=
  match x with
  | Num q => Ok q
  | Str s =>
      match float_str rt s with
      | Some q => Ok q
      | None => Raise ValueError
      end
  | NaN => Raise ValueError
  end.

Definition safe_float (x : cell) : option Q :=
  match
    (if isna x then Ok None
     else q <- py_float x ;; Ok (Some q))
  with
  | Ok v => v
  | Raise _ => None
  end.

(** [pd.to_numeric(..., errors="coerce")]. *)
Definition to_numeric_coerce (c : cell) : option Q :=
  match c with
  | NaN => None
  | Num x => Some x
  | Str s => to_numeric_str rt s
  end.

(** *** Main *)

Definition canonical_name (r : RawRow) : string :=
  let n := strip (astype_str (PlayerName r)) in
  dict_get_default ALIASES n n.

Definition parse_row (r : RawRow) : result ParsedRow :=
  start <- parse_udisc_dt (StartDate r) ;;
  end_ <- parse_udisc_dt (EndDate r) ;;
  Ok {| p_raw := r; p_PlayerName := canonical_name r;
        p_StartDT := start; p_EndDT := end_ |}.

Definition hole_1_18 : list nat := seq 1 18.
Definition hole_19_plus : list nat := seq 19 9.

Definition has_all_18 (r : RawRow) : bool :=
  negb (existsb (fun i => isna (Hole r i)) hole_1_18).

Definition has_extra (r : RawRow) : bool :=
  existsb (fun i => notna (Hole r i)) hole_19_plus.

Definition full_18_only (r : RawRow) : bool :=
  has_all_18 r && negb (has_extra r).

Definition keep_row (p : ParsedRow) : bool :=
  isin (p_PlayerName p) TRACKED_PLAYERS && full_18_only (p_raw p).

Definition course_key (r : RawRow) : string :=
  strip (astype_str (CourseName r)) ++ " — "
  ++ strip (astype_str (LayoutName r)).

Definition round_id (player key : string) (start total : cell) : string :=
  str_int (Z.abs (hash rt (player ++ "|" ++ key ++ "|" ++ astype_str start
                           ++ "|" ++ astype_str total))).

Definition derive_row (p : ParsedRow) : result Row :=
  let r := p_raw p in
  let rating := to_numeric_coerce (RoundRating r) in
  let round_date := dt_date (p_StartDT p) in
  season_meta <- season_for round_date ;;
  Ok {| raw := r;
        Player := p_PlayerName p;
        StartDT := p_StartDT p;
        EndDT := p_EndDT p;
        RoundRatingNum := rating;
        IsRated := match rating with Some _ => true | None => false end;
        RoundDate := round_date;
        SeasonType := season_type season_meta;
        SeasonLabel := season_label season_meta;
        CourseKey := course_key r;
        RoundId := round_id (p_PlayerName p) (course_key r)
                     (StartDate r) (Total r) |}.

(** The frame [df] as it stands when the outputs are built. *)
Definition build_frame (rows : list RawRow) : result (list Row) :=
  parsed <- apply_rows parse_row rows ;;
  apply_rows derive_row (filter keep_row parsed).

(** *** rounds.json *)

Definition round_record (r : Row) : RoundRecord :=
  {| round_id_ := RoundId r;
     player := Player r;
     course := strip (astype_str (CourseName (raw r)));
     layout := strip (astype_str (LayoutName (raw r)));
     course_key_ := CourseKey r;
     start := datetime_isoformat (StartDT r);
     end_ := datetime_isoformat (EndDT r);
     total := safe_float (Total (raw r));
     plus_minus :=
       match PlusMinus (raw r) with
       | Some c => astype_str c
       | None =>
           match PlusMinusAscii (raw r) with
           | Some c => astype_str c
           | None => EmptyString
           end
       end;
     rating := safe_float (of_float (RoundRatingNum r));
     is_rated := IsRated r;
     r_season_type := SeasonType r;
     r_season_label := SeasonLabel r |}.

Definition build_rounds (df : list Row) : list RoundRecord :=
  map round_record (sort_values_StartDT rt true df).

(** *** Season ladders: sum of the best 10 ratings per season *)

Definition rated_df (df : list Row) : list Row := filter IsRated df.

Definition ladder_entry (k : string * string) (g : list Row) : LadderEntry :=
  let ratings := sorted_reverse (dropna (map RoundRatingNum g)) in
  let top10 := take BEST10_COUNT ratings in
  {| l_season_label := fst k;
     l_player := snd k;
     season_total_best10 :=
       match top10 with [] => None | _ => Some (sum top10) end;
     rated_rounds_in_season := len ratings;
     counted_rounds := len top10;
     best_round_rating := max_list ratings |}.

Definition build_ladders (df : list Row) : list LadderEntry :=
  map (fun kg => ladder_entry (fst kg) (snd kg))
      (groupby pair_eqb pair_leb (fun r => (SeasonLabel r, Player r))
               (rated_df df)).

(** *** Handicaps: best 8 of the last 20 rated rounds *)

(** The ratings of the rolling window of one player's rated rounds. *)
Definition window_ratings (g : list Row) : list Q :=
  let g2 := sort_values_StartDT rt false g in
  let last20 := take HANDICAP_WINDOW g2 in
  dropna (map RoundRatingNum last20).

(** One turn of the first loop: the value stored in [player_form]. *)
Definition form_of_group (g : list Row) : option Q :=
  let ratings := window_ratings g in
  if len ratings <? HANDICAP_MIN_ROUNDS then None
  else
    let best8 := take HANDICAP_BEST (sorted_reverse ratings) in
    Some (sum best8 / inject_Z (len best8))%Q.

Definition player_form (df : list Row) : list (string * option Q) :=
  map (fun pg => (fst pg, form_of_group (snd pg)))
      (groupby String.eqb String.leb Player (rated_df df)).

(** [[v for v in player_form.values() if v is not None]]. *)
Definition eligible_forms (pf : list (string * option Q)) : list Q :=
  dropna (map snd pf).

Definition reference (pf : list (string * option Q)) : option Q :=
  let e := eligible_forms pf in
  match e with
  | [] => None
  | _ => Some (sum e / inject_Z (len e))%Q
  end.

(** One turn of the second loop. *)
Definition handicap_entry (pf : list (string * option Q))
           (reference : option Q) (player : string) : HandicapEntry :=
  let form_index := dict_get pf player in
  match reference, form_index with
  | Some ref, Some f =>
      let raw := ((ref - f) / HANDICAP_POINTS_PER_STROKE)%Q in
      let h := round_half raw in
      let h := py_max (- HANDICAP_CAP) (py_min HANDICAP_CAP h) in
      {| h_player := player;
         handicap := Some h;
         form_index := Some f;
         reference_rating := Some ref;
         method := METHOD;
         status := STATUS_OK |}
  | _, _ =>
      {| h_player := player;
         handicap := None;
         form_index := form_index;
         reference_rating := reference;
         method := METHOD;
         status := STATUS_INSUFFICIENT |}
  end.

Definition build_handicaps (df : list Row) : list HandicapEntry :=
  let pf := player_form df in
  map (handicap_entry pf (reference pf)) (sorted_str TRACKED_PLAYERS).

(** *** Players summary *)

Definition player_summary (p : string) (g : list Row) : PlayerSummary :=
  let rated := dropna (map RoundRatingNum (filter IsRated g)) in
  {| s_player := p;
     s_rounds := len g;
     rated_rounds := len rated;
     best_rating := max_list rated;
     avg_rating :=
       match rated with
       | [] => None
       | _ => Some (sum rated / inject_Z (len rated))%Q
       end |}.

Definition build_players (df : list Row) : list PlayerSummary :=
  map (fun pg => player_summary (fst pg) (snd pg))
      (groupby String.eqb String.leb Player df).

Definition main (rows : list RawRow) : result outputs :=
  df <- build_frame rows ;;
  Ok {| rounds := build_rounds df;
        ladders := build_ladders df;
        handicaps := build_handicaps df;
        players := build_players df |}.
End Pipeline.

(** Two runs of the script in two interpreter processes differ in the salt
    of [hash] and in nothing else. *)
Definition with_hash (rt : runtime) (h : string -> Z) : runtime :=
  {| hash := h;
     strptime := strptime rt;
     str_num := str_num rt;
     to_numeric_str := to_numeric_str rt;
     float_str := float_str rt;
     sort_values_StartDT := sort_values_StartDT rt |}.

(** The text that [main] hashes into the round id of a row. *)
Definition id_text (rt : runtime) (r : Row) : string :=
  Player r ++ "|" ++ CourseKey r ++ "|" ++ astype_str rt (StartDate (raw r))
  ++ "|" ++ astype_str rt (Total (raw r)).

(* ------------------------------------------------------------------ *)
(** ** A concrete runtime, for running the model on sample exports *)

Module Sample.

Definition digit (c : ascii) : option Z :=
  let n := Z.of_nat (nat_of_ascii c) in
  if (48 <=? n) && (n <=? 57) then Some (n - 48) else None.

Fixpoint number_from (acc : Z) (s : string) : option Z :=
  match s with
  | EmptyString => Some acc
  | String c s' =>
      match digit c with
      | Some d => number_from (acc * 10 + d) s'
      | None => None
      end
  end.

Definition number (s : string) : option Z :=
  match s with
  | EmptyString => None
  | _ => number_from 0 s
  end.

(** Reads the canonical spelling [YYYY-MM-DD HHMM] only. *)
Definition strict_strptime (s : string) : result datetime :=
  match number (substring 0 4 s), number (substring 5 2 s),
        number (substring 8 2 s), number (substring 11 2 s),
        number (substring 13 2 s) with
  | Some y, Some m, Some d, Some hh, Some mm =>
      if (String.length s =? 15)%nat
         && String.eqb (substring 4 1 s) "-"
         && String.eqb (substring 7 1 s) "-"
         && String.eqb (substring 10 1 s) " "
         && (hh <? 24) && (mm <? 60)
      then dt <- Date.new y m d ;; Ok (mkDT dt hh mm)
      else Raise ValueError
  | _, _, _, _, _ => Raise ValueError
  end.

(** Prints integers; other numbers do not occur in the samples. *)
Definition str_floor (x : Q) : string := str_int (Qfloor x).

Definition to_number (s : string) : option Q :=
  match number s with
  | Some n => Some (inject_Z n)
  | None => None
  end.

Definition stable_sort_values (ascending : bool) (l : list Row) : list Row :=
  if ascending
  then sorted (fun a b => datetime_leb (StartDT a) (StartDT b)) l
  else sorted (fun a b => datetime_leb (StartDT b) (StartDT a)) l.

(** Two stand-ins for the salted [hash] of two processes. *)
Fixpoint code_sum (s : string) : Z :=
  match s with
  | EmptyString => 0
  | String c s' => Z.of_nat (nat_of_ascii c) + 31 * code_sum s'
  end.

Definition hash_a (s : string) : Z := code_sum s.
Definition hash_b (s : string) : Z := - (code_sum s) - 7.

Definition rt : runtime :=
  {| hash := hash_a;
     strptime := strict_strptime;
     str_num := str_floor;
     to_numeric_str := to_number;
     float_str := to_number;
     sort_values_StartDT := stable_sort_values |}.

(** A complete round of 18 holes, and export rows built on it. *)
Definition holes18 (i : nat) : cell :=
  if (Nat.leb 1 i && Nat.leb i 18)%bool then Num 3 else NaN.

Definition row (name when : string) (rating_cell : cell) : RawRow :=
  {| PlayerName := Str name;
     StartDate := Str when;
     EndDate := Str when;
     CourseName := Str "Bellbird Park";
     LayoutName := Str " Main ";
     Total := Num 54;
     RoundRating := rating_cell;
     PlusMinus := Some (Str "E");
     PlusMinusAscii := None;
     Hole := holes18 |}.

Definition with_hole (r : RawRow) (i : nat) (c : cell) : RawRow :=
  {| PlayerName := PlayerName r;
     StartDate := StartDate r;
     EndDate := EndDate r;
     CourseName := CourseName r;
     LayoutName := LayoutName r;
     Total := Total r;
     RoundRating := RoundRating r;
     PlusMinus := PlusMinus r;
     PlusMinusAscii := PlusMinusAscii r;
     Hole := fun j => if Nat.eqb j i then c else Hole r j |}.

(** Five rated rounds of Miza (one under the alias), one unrated round of
    Jobby, one round of a stranger. *)
Definition export : list RawRow :=
  [ row "Misa" "2025-12-22 0349" (Num 950);
    row " Miza" "2025-12-23 0349" (Str "940");
    row "Miza" "2025-03-01 1000" (Num 960);
    row "Miza" "2025-04-06 1000" (Num 930);
    row "Miza" "2025-10-04 1000" (Num 920);
    row "Jobby" "2025-10-05 1000" (Str "n/a");
    row "Stranger" "2025-10-05 1000" (Num 1000) ].

(** Eleven rated rounds of Jobby in one season, rated 900 to 910. *)
Definition long_export : list RawRow :=
  map (fun i => row "Jobby" ("2025-12-" ++ str_int (10 + i) ++ " 1000")
                    (Num (inject_Z (900 + i))))
      [0; 1; 2; 3; 4; 5; 6; 7; 8; 9; 10].

End Sample.

(* ------------------------------------------------------------------ *)
(** ** Checkers run over the years of [datetime.date] *)

Definition years : list Z :=
  map Z.of_nat (seq 1 (Z.to_nat Date.MAXYEAR)).

(** [d] is the first Sunday of [month] in [year]. *)
Definition is_first_sunday (year month : Z) (d : Date.date) : bool :=
  (Date.year d =? year) && (Date.month d =? month)
  && (1 <=? Date.day d) && (Date.day d <=? 7) && (Date.weekday d =? 6).

(** The day before a date of the first week of [month] (April or
    October). *)
Definition eve (d : Date.date) : Date.date :=
  if Date.day d =? 1
  then Date.mk (Date.year d) (Date.month d - 1)
               (if Date.month d =? 4 then 31 else 30)
  else Date.mk (Date.year d) (Date.month d) (Date.day d - 1).

Definition boundary_ok (year month : Z) : bool :=
  match first_sunday year month with
  | Ok d =>
      is_first_sunday year month d
      && match Date.add_days d (-1) with
         | Ok e => Date.eqb e (eve d)
         | Raise _ => false
         end
  | Raise _ => false
  end.

Definition year_ok (year : Z) : bool :=
  boundary_ok year 4 && boundary_ok year 10.

Definition suffix_ok (year : Z) : bool :=
  if year <? 10 then String.eqb (last_chars 2 (str_int year)) (str_int year)
  else String.eqb (last_chars 2 (str_int year))
                  (zfill 2 (str_int (year mod 100))).

(** The part of [season_for d] that names the season. *)
Definition classify (d : Date.date) : result (string * string) :=
  s <- season_for d ;; Ok (season_type s, season_label s).

(* ------------------------------------------------------------------ *)
(** ** Notions used to state the properties *)

(** Holes 1 to 18 all carry a score and holes 19 to 27 carry none. *)
Definition complete_round (row : RawRow) : Prop :=
  (forall i, (1 <= i <= 18)%nat -> Hole row i <> NaN)
  /\ (forall i, (19 <= i <= 27)%nat -> Hole row i = NaN).

(** [sort_values] reorders the rows it is given. *)
Definition sort_values_permutes (rt : runtime) : Prop :=
  forall (ascending : bool) (l : list Row),
    Permutation (sort_values_StartDT rt ascending l) l.


(** What holds of every row of the frame. *)
Record frame_row (rt : runtime) (rows : list RawRow) (r : Row) : Prop := {
  fr_raw : In (raw r) rows;
  fr_player : Player r = canonical_name rt (raw r);
  fr_tracked : isin (Player r) TRACKED_PLAYERS = true;
  fr_full : full_18_only (raw r) = true;
  fr_rating : RoundRatingNum r = to_numeric_coerce rt (RoundRating (raw r));
  fr_rated :
    IsRated r = match RoundRatingNum r with Some _ => true | None => false end;
  fr_key : CourseKey r = course_key rt (raw r);
  fr_id : RoundId r = str_int (Z.abs (hash rt (id_text rt r)));
  fr_start : parse_udisc_dt rt (StartDate (raw r)) = Ok (StartDT r);
  fr_season :
    classify (dt_date (StartDT r)) = Ok (SeasonType r, SeasonLabel r)
}.

(** The rated rounds of one player, in the order of the frame. *)
Definition rated_rounds_of (df : list Row) (p : string) : list Row :=
  filter (fun r => String.eqb (Player r) p) (rated_df df).

(** The ratings of a player's rated rounds of one season, in the order of
    the frame. *)
Definition season_ratings (df : list Row) (season player : string) : list Q :=
  dropna (map RoundRatingNum
              (filter (fun r => pair_eqb (SeasonLabel r, Player r)
                                         (season, player))
                      (rated_df df))).

(** The order of [sorted(..., reverse=True)]. *)
Definition geb_Q (x y : Q) : bool := Qle_bool y x.

(** The row with another round id. *)
Definition with_round_id (r : Row) (id : string) : Row :=
  {| raw := raw r;
     Player := Player r;
     StartDT := StartDT r;
     EndDT := EndDT r;
     RoundRatingNum := RoundRatingNum r;
     IsRated := IsRated r;
     RoundDate := RoundDate r;
     SeasonType := SeasonType r;
     SeasonLabel := SeasonLabel r;
     CourseKey := CourseKey r;
     RoundId := id |}.

(** The row as a process whose [hash] is [h] builds it. *)
Definition rehash (rt : runtime) (h : string -> Z) (r : Row) : Row :=
  with_round_id r (str_int (Z.abs (h (id_text rt r)))).

(** The sample export run through the model. *)
Definition sample_frame : list Row :=
  Eval vm_compute in
    match build_frame Sample.rt Sample.export with
    | Ok df => df
    | Raise _ => []
    end.

Definition sample_out : outputs :=
  Eval vm_compute in
    match main Sample.rt Sample.export with
    | Ok out => out
    | Raise _ => mkOutputs [] [] [] []
    end.

Definition sample_entry (p : string) : HandicapEntry :=
  handicap_entry (player_form Sample.rt sample_frame)
                 (reference (player_form Sample.rt sample_frame)) p.

Definition sample_form : Q :=
  Eval vm_compute in
    match form_index (sample_entry "Miza") with
    | Some f => f
    | None => 0%Q
    end.

Definition sample_handicap : Q :=
  Eval vm_compute in
    match handicap (sample_entry "Miza") with
    | Some h => h
    | None => 0%Q
    end.

(* ------------------------------------------------------------------ *)
(** ** Further notions and samples *)





(** [n] is a nearest integer of [x], and the even one at a tie. *)
Definition nearest_even (x : Q) (n : Z) : Prop :=
  (inject_Z n - (1 # 2) <= x)%Q /\ (x <= inject_Z n + (1 # 2))%Q
  /\ ((x == inject_Z n + (1 # 2))%Q \/ (x == inject_Z n - (1 # 2))%Q ->
      Z.even n = true).

(** The clamp of the script. *)
Definition clamp (v : Q) : Q :=
  py_max (- HANDICAP_CAP) (py_min HANDICAP_CAP v).

(** Rounds of one player on consecutive days of December 2025, with the
    given ratings. *)
Definition rounds_of (name : string) (ratings : list Z) : list RawRow :=
  map (fun iq => Sample.row name
                   ("2025-12-" ++ str_int (10 + fst iq) ++ " 1000")
                   (Num (inject_Z (snd iq))))
      (combine [0; 1; 2; 3; 4; 5; 6; 7; 8; 9] ratings).

(** Two players with a form index each. *)
Definition duel_export : list RawRow :=
  (rounds_of "Miza" [950; 940; 960; 930; 920]
   ++ rounds_of "Jobby" [880; 890; 905; 910; 900])%list.

Definition duel_out : outputs :=
  Eval vm_compute in
    match main Sample.rt duel_export with
    | Ok out => out
    | Raise _ => mkOutputs [] [] [] []
    end.

Definition duel_entry (p : string) : HandicapEntry :=
  Eval vm_compute in
    match find (fun e => String.eqb (h_player e) p) (handicaps duel_out) with
    | Some e => e
    | None => mkHandicap p None None None METHOD STATUS_INSUFFICIENT
    end.







(* ================================================================== *)
(** * Properties *)

(** ** The calendar *)

Lemma years_spec (y : Z) : In y years <-> 1 <= y <= 9999.
Proof.
  unfold years. rewrite in_map_iff. split.
  - intros [n [<- Hn]]. apply in_seq in Hn. unfold Date.MAXYEAR in Hn. lia.
  - intros Hy. exists (Z.to_nat y). split; [lia|]. apply in_seq.
    unfold Date.MAXYEAR. lia.
Qed.

Lemma all_years_ok : forallb year_ok years = true.
Proof. vm_compute. reflexivity. Qed.

Lemma all_suffixes_ok : forallb suffix_ok (10000 :: years) = true.
Proof. vm_compute. reflexivity. Qed.

Lemma date_eqb_eq (a b : Date.date) : Date.eqb a b = true -> a = b.
Proof.
  destruct a, b. unfold Date.eqb. cbn.
  rewrite !andb_true_iff, !Z.eqb_eq. intros [[-> ->] ->]. reflexivity.
Qed.

Lemma date_geb_refl (d : Date.date) : Date.geb d d = true.
Proof.
  unfold Date.geb. rewrite !Z.eqb_refl, Z.leb_refl, orb_true_r.
  cbn. apply orb_true_r.
Qed.

Lemma boundary_facts (Y m : Z) :
  1 <= Y <= 9999 -> m = 4 \/ m = 10 ->
  exists d, first_sunday Y m = Ok d /\ is_first_sunday Y m d = true
            /\ Date.add_days d (-1) = Ok (eve d).
Proof.
  intros HY Hm.
  pose proof all_years_ok as H. rewrite forallb_forall in H.
  specialize (H Y (proj2 (years_spec Y) HY)).
  unfold year_ok in H. apply andb_true_iff in H. destruct H as [H4 H10].
  assert (Hb : boundary_ok Y m = true) by (destruct Hm; subst; assumption).
  unfold boundary_ok in Hb.
  destruct (first_sunday Y m) as [d|]; [|discriminate].
  apply andb_true_iff in Hb. destruct Hb as [Hf He].
  exists d. split; [reflexivity|]. split; [assumption|].
  destruct (Date.add_days d (-1)) as [e|]; [|discriminate].
  apply date_eqb_eq in He. now subst.
Qed.

Lemma is_first_sunday_inv (Y m : Z) (d : Date.date) :
  is_first_sunday Y m d = true ->
  Date.year d = Y /\ Date.month d = m /\ 1 <= Date.day d <= 7
  /\ Date.weekday d = 6.
Proof.
  unfold is_first_sunday. rewrite !andb_true_iff, !Z.eqb_eq, !Z.leb_le. tauto.
Qed.

Lemma suffix_facts (Y : Z) :
  10 <= Y <= 10000 ->
  last_chars 2 (str_int Y) = zfill 2 (str_int (Y mod 100)).
Proof.
  intros HY.
  pose proof all_suffixes_ok as H. rewrite forallb_forall in H.
  assert (Hin : In Y (10000 :: years)).
  { destruct (Z.eq_dec Y 10000) as [->|]; [now left|].
    right. apply years_spec. lia. }
  specialize (H Y Hin). unfold suffix_ok in H.
  destruct (Y <? 10) eqn:E; [apply Z.ltb_lt in E; lia|].
  now apply String.eqb_eq.
Qed.

(** [season_for] on a date of year [Y], once the boundaries of the year are
    known. *)
Lemma season_for_unfold (d apr oct : Date.date) :
  first_sunday (Date.year d) 4 = Ok apr ->
  first_sunday (Date.year d) 10 = Ok oct ->
  season_for d =
    if Date.geb d oct then
      Ok {| season_type := "Summer";
            season_label := "Summer " ++ str_int (Date.year d) ++ "-"
                            ++ last_chars 2 (str_int (Date.year d + 1));
            season_start := Date.isoformat oct |}
    else if Date.geb d apr then
      Ok {| season_type := "Winter";
            season_label := "Winter " ++ str_int (Date.year d);
            season_start := Date.isoformat apr |}
    else
      prev_oct_start <- first_sunday (Date.year d - 1) 10 ;;
      Ok {| season_type := "Summer";
            season_label := "Summer " ++ str_int (Date.year d - 1) ++ "-"
                            ++ last_chars 2 (str_int (Date.year d));
            season_start := Date.isoformat prev_oct_start |}.
Proof. intros Ha Ho. unfold season_for. rewrite Ha, Ho. reflexivity. Qed.

Lemma valid_year (d : Date.date) :
  Date.valid d = true -> 1 <= Date.year d <= 9999.
Proof.
  unfold Date.valid, Date.MINYEAR, Date.MAXYEAR.
  rewrite !andb_true_iff, !Z.leb_le. lia.
Qed.

Lemma first_sunday_april_1 : first_sunday 1 4 = Ok (Date.mk 1 4 1).
Proof. reflexivity. Qed.

Lemma season_for_total (d : Date.date) :
  Date.valid d = true ->
  2 <= Date.year d \/ Date.geb d (Date.mk 1 4 1) = true ->
  exists s, season_for d = Ok s
            /\ (season_type s = "Summer" \/ season_type s = "Winter").
Proof.
  intros Hv Hd. pose proof (valid_year d Hv) as HY.
  destruct (boundary_facts (Date.year d) 4 HY (or_introl eq_refl))
    as [apr [Ha _]].
  destruct (boundary_facts (Date.year d) 10 HY (or_intror eq_refl))
    as [oct [Ho _]].
  rewrite (season_for_unfold d apr oct Ha Ho).
  destruct (Date.geb d oct); [eexists; split; [reflexivity|now left]|].
  destruct (Date.geb d apr) eqn:Eapr;
    [eexists; split; [reflexivity|now right]|].
  destruct Hd as [Hd|Hd].
  - destruct (boundary_facts (Date.year d - 1) 10) as [po [Hp _]];
      [lia|now right|].
    rewrite Hp. eexists; split; [reflexivity|now left].
  - destruct (Z.eq_dec (Date.year d) 1) as [E|E].
    + rewrite E, first_sunday_april_1 in Ha. injection Ha as <-.
      congruence.
    + destruct (boundary_facts (Date.year d - 1) 10) as [po [Hp _]];
        [lia|now right|].
      rewrite Hp. eexists; split; [reflexivity|now left].
Qed.

(** What the four boundary dates of a year look like. *)
Lemma eve_facts (Y m : Z) (d : Date.date) :
  m = 4 \/ m = 10 ->
  is_first_sunday Y m d = true ->
  Date.year (eve d) = Y /\ Date.geb (eve d) d = false
  /\ (Date.month (eve d) = m \/ Date.month (eve d) = m - 1).
Proof.
  intros Hm Hd. apply is_first_sunday_inv in Hd.
  destruct Hd as [Hy [Hmo [Hday _]]]. destruct d as [y mo dd]. cbn in *.
  subst y mo. unfold eve. cbn.
  destruct (dd =? 1) eqn:E; cbn.
  - apply Z.eqb_eq in E. subst dd. repeat split; [|now right].
    unfold Date.geb. cbn. rewrite Z.ltb_irrefl, Z.eqb_refl. cbn.
    destruct Hm; subst m; reflexivity.
  - apply Z.eqb_neq in E. repeat split; [|now left].
    unfold Date.geb. cbn. rewrite !Z.ltb_irrefl, !Z.eqb_refl. cbn.
    apply Z.leb_gt. lia.
Qed.

Lemma geb_month_lt (a b : Date.date) :
  Date.year a = Date.year b -> Date.month a < Date.month b ->
  Date.geb a b = false /\ Date.geb b a = true.
Proof.
  intros Hy Hm. unfold Date.geb. rewrite Hy, Z.ltb_irrefl, Z.eqb_refl. cbn.
  split.
  - rewrite orb_false_iff. split; [apply Z.ltb_ge; lia|].
    rewrite andb_false_iff. left. apply Z.eqb_neq. lia.
  - rewrite orb_true_iff. left. apply Z.ltb_lt. lia.
Qed.

(** C4, as the code has it.  [season_for] classifies every date from the
    first Sunday of April of year 1 on (a date of year 1 before it needs
    the October of year 0, which [datetime.date] does not have), into one
    (season_type, season_label) pair.  For every year Y of [datetime.date]
    (1 to 9999): the first Sunday of October is Summer of Y and the day
    before it is Winter of Y; the first Sunday of April is Winter of Y and,
    from year 2 on, the day before it is the Summer that began in Y-1,
    whose label ends in the last two digits of Y. *)
Theorem season_for_partition :
  (forall d : Date.date,
      Date.valid d = true ->
      2 <= Date.year d \/ Date.geb d (Date.mk 1 4 1) = true ->
      exists tl, classify d = Ok tl
                 /\ (fst tl = "Summer" \/ fst tl = "Winter")
                 /\ forall tl', classify d = Ok tl' -> tl' = tl)
  /\ (forall Y : Z,
      1 <= Y <= 9999 ->
      exists apr oct apr_eve oct_eve : Date.date,
        first_sunday Y 4 = Ok apr /\ is_first_sunday Y 4 apr = true
        /\ first_sunday Y 10 = Ok oct /\ is_first_sunday Y 10 oct = true
        /\ Date.add_days apr (-1) = Ok apr_eve
        /\ Date.add_days oct (-1) = Ok oct_eve
        /\ classify oct
           = Ok ("Summer", "Summer " ++ str_int Y ++ "-"
                           ++ last_chars 2 (str_int (Y + 1)))
        /\ classify oct_eve = Ok ("Winter", "Winter " ++ str_int Y)
        /\ classify apr = Ok ("Winter", "Winter " ++ str_int Y)
        /\ (2 <= Y ->
            classify apr_eve
            = Ok ("Summer", "Summer " ++ str_int (Y - 1) ++ "-"
                            ++ last_chars 2 (str_int Y)))
        /\ (10 <= Y ->
            last_chars 2 (str_int Y) = zfill 2 (str_int (Y mod 100)))).
Proof.
  split.
  - intros d Hv Hd. destruct (season_for_total d Hv Hd) as [s [Hs Ht]].
    exists (season_type s, season_label s). unfold classify. rewrite Hs. cbn.
    split; [reflexivity|]. split; [assumption|].
    intros tl' H. now injection H as <-.
  - intros Y HY.
    destruct (boundary_facts Y 4 HY (or_introl eq_refl))
      as [apr [Ha [Hfa Hea]]].
    destruct (boundary_facts Y 10 HY (or_intror eq_refl))
      as [oct [Ho [Hfo Heo]]].
    exists apr, oct, (eve apr), (eve oct).
    pose proof (is_first_sunday_inv _ _ _ Hfa) as [Hya [Hma _]].
    pose proof (is_first_sunday_inv _ _ _ Hfo) as [Hyo [Hmo _]].
    pose proof (eve_facts Y 4 apr (or_introl eq_refl) Hfa)
      as [Hyea [Hgea Hmea]].
    pose proof (eve_facts Y 10 oct (or_intror eq_refl) Hfo)
      as [Hyeo [Hgeo Hmeo]].
    repeat (split; [assumption|]).
    assert (Hu : forall d, Date.year d = Y ->
                 season_for d = _) by
      (intros d Hd; apply (season_for_unfold d apr oct);
       rewrite Hd; assumption).
    split; [|split; [|split; [|split]]].
    + unfold classify. rewrite (Hu oct Hyo), date_geb_refl. cbn.
      now rewrite Hyo.
    + unfold classify. rewrite (Hu (eve oct) Hyeo), Hgeo.
      assert (Hg : Date.geb (eve oct) apr = true).
      { apply (geb_month_lt apr (eve oct)); [congruence|lia]. }
      rewrite Hg. cbn. now rewrite Hyeo.
    + unfold classify. rewrite (Hu apr Hya), date_geb_refl.
      assert (Hg : Date.geb apr oct = false).
      { apply (geb_month_lt apr oct); [congruence|lia]. }
      rewrite Hg. cbn. now rewrite Hya.
    + intros H2. unfold classify. rewrite (Hu (eve apr) Hyea), Hgea.
      assert (Hg : Date.geb (eve apr) oct = false).
      { apply (geb_month_lt (eve apr) oct); [congruence|lia]. }
      rewrite Hg.
      destruct (boundary_facts (Y - 1) 10) as [po [Hp _]];
        [lia|now right|].
      rewrite Hyea, Hp. reflexivity.
    + intros H10. apply suffix_facts. lia.
Qed.

Lemma season_for_partition_witness :
  (exists tl, classify (Date.mk 2025 12 22) = Ok tl
              /\ (fst tl = "Summer" \/ fst tl = "Winter")
              /\ forall tl', classify (Date.mk 2025 12 22) = Ok tl' -> tl' = tl)
  /\ (exists apr oct apr_eve oct_eve : Date.date,
        first_sunday 2025 4 = Ok apr /\ is_first_sunday 2025 4 apr = true
        /\ first_sunday 2025 10 = Ok oct /\ is_first_sunday 2025 10 oct = true
        /\ Date.add_days apr (-1) = Ok apr_eve
        /\ Date.add_days oct (-1) = Ok oct_eve
        /\ classify oct = Ok ("Summer", "Summer 2025-26")
        /\ classify oct_eve = Ok ("Winter", "Winter 2025")
        /\ classify apr = Ok ("Winter", "Winter 2025")
        /\ (2 <= 2025 -> classify apr_eve = Ok ("Summer", "Summer 2024-25"))
        /\ (10 <= 2025 -> last_chars 2 (str_int 2025) = "25")).
Proof.
  split.
  - apply (proj1 season_for_partition (Date.mk 2025 12 22)).
    + reflexivity.
    + left. cbn. lia.
  - apply (proj2 season_for_partition 2025). lia.
Defined.

(** C4 as it is written fails in year 1: New Year's Day of year 1 is a
    date, and [season_for] raises on it; so does the day before the first
    Sunday of April of year 1. *)
Lemma season_for_year_1_raises :
  Date.valid (Date.mk 1 1 1) = true
  /\ season_for (Date.mk 1 1 1) = Raise ValueError
  /\ first_sunday 1 4 = Ok (Date.mk 1 4 1)
  /\ Date.add_days (Date.mk 1 4 1) (-1) = Ok (Date.mk 1 3 31)
  /\ season_for (Date.mk 1 3 31) = Raise ValueError.
Proof. repeat split; vm_compute; reflexivity. Qed.

(** ** Rounding *)

#[local] Instance py_round_comp : Proper (Qeq ==> eq) py_round.
Proof.
  intros x y H. unfold py_round.
  assert (Hf : Qfloor x = Qfloor y) by now apply Qfloor_comp.
  rewrite Hf.
  assert (Hc : (x - inject_Z (Qfloor y) ?= 1 # 2)%Q
               = (y - inject_Z (Qfloor y) ?= 1 # 2)%Q).
  { apply Qcompare_comp; [rewrite H|]; reflexivity. }
  rewrite Hc. reflexivity.
Qed.

#[local] Instance round_half_comp : Proper (Qeq ==> Qeq) round_half.
Proof.
  intros x y H. unfold round_half.
  assert (Hr : py_round (x * 2) = py_round (y * 2)).
  { apply py_round_comp. rewrite H. reflexivity. }
  rewrite Hr. reflexivity.
Qed.

(** A tie: [k + 1/2] goes to the even one of [k] and [k + 1]. *)
Lemma py_round_tie (k : Z) :
  py_round (inject_Z k + (1 # 2)) = if Z.even k then k else k + 1.
Proof.
  unfold py_round.
  assert (Hf : Qfloor (inject_Z k + (1 # 2)) = k).
  { apply Z.le_antisymm.
    - assert (H : (Qfloor (inject_Z k + (1 # 2)) < k + 1)%Z); [|lia].
      rewrite Zlt_Qlt. eapply Qle_lt_trans; [apply Qfloor_le|].
      rewrite inject_Z_plus. change (inject_Z 1) with 1%Q. lra.
    - rewrite <- (Qfloor_Z k) at 1. apply Qfloor_resp_le. lra. }
  rewrite Hf.
  assert (He : (inject_Z k + (1 # 2) - inject_Z k == 1 # 2)%Q) by lra.
  rewrite He. reflexivity.
Qed.

Lemma round_half_quarter (x : Q) (k : Z) :
  (x == (2 * k + 1) # 4)%Q ->
  (round_half x == inject_Z (if Z.even k then k else k + 1) * (1 # 2))%Q.
Proof.
  intros Hx. unfold round_half.
  assert (H : (x * 2 == inject_Z k + (1 # 2))%Q).
  { rewrite Hx. unfold Qeq, inject_Z, Qplus, Qmult.
    cbn [Qnum Qden]. lia. }
  rewrite H, py_round_tie. field.
Qed.

(** [round_half] always lands on a multiple of one half. *)
Lemma round_half_multiple (x : Q) :
  (round_half x == inject_Z (py_round (x * 2)) * (1 # 2))%Q.
Proof. unfold round_half. field. Qed.

Lemma Qlt_bool_iff (a b : Q) : Qlt_bool a b = true <-> (a < b)%Q.
Proof.
  unfold Qlt_bool. rewrite negb_true_iff. split.
  - intros H. apply Qnot_le_lt. intros Hle.
    apply Qle_bool_iff in Hle. congruence.
  - intros H. destruct (Qle_bool b a) eqn:E; [|reflexivity].
    apply Qle_bool_iff in E. lra.
Qed.

Lemma Qlt_bool_false (a b : Q) : Qlt_bool a b = false <-> (b <= a)%Q.
Proof.
  unfold Qlt_bool. rewrite negb_false_iff. apply Qle_bool_iff.
Qed.

(** The clamp of the script, on a multiple of one half. *)
Lemma clamp_half (n : Z) :
  let h := py_max (- HANDICAP_CAP)
                  (py_min HANDICAP_CAP (inject_Z n * (1 # 2))) in
  (- (6) <= h /\ h <= 6)%Q /\ exists m : Z, (h == inject_Z m * (1 # 2))%Q.
Proof.
  unfold py_max, py_min, HANDICAP_CAP.
  destruct (Qlt_bool (inject_Z n * (1 # 2)) 6) eqn:E1.
  - apply Qlt_bool_iff in E1.
    destruct (Qlt_bool (- (6)) (inject_Z n * (1 # 2))) eqn:E2.
    + apply Qlt_bool_iff in E2. split; [lra|]. exists n. reflexivity.
    + split; [lra|]. exists (-12). reflexivity.
  - apply Qlt_bool_false in E1.
    destruct (Qlt_bool (- (6)) 6) eqn:E2.
    + split; [lra|]. exists 12. reflexivity.
    + apply Qlt_bool_false in E2. lra.
Qed.

(** ** Traversals that may raise *)

Lemma apply_rows_Forall2 {A B : Type} (f : A -> result B) (l : list A)
      (l' : list B) :
  apply_rows f l = Ok l' <-> Forall2 (fun a b => f a = Ok b) l l'.
Proof.
  revert l'. induction l as [|a l IH]; intros l'; cbn.
  - split.
    + intros H. injection H as <-. constructor.
    + intros H. inversion H. reflexivity.
  - split.
    + destruct (f a) as [b|] eqn:Ea; cbn; [|discriminate].
      destruct (apply_rows f l) as [bs|] eqn:El; cbn; [|discriminate].
      intros H. injection H as <-. constructor; [assumption|].
      now apply IH.
    + intros H. inversion H as [|? b ? bs Hb Hbs]; subst.
      rewrite Hb. cbn. apply IH in Hbs. rewrite Hbs. reflexivity.
Qed.

Lemma apply_rows_In {A B : Type} (f : A -> result B) (l : list A)
      (l' : list B) (b : B) :
  apply_rows f l = Ok l' -> In b l' -> exists a, In a l /\ f a = Ok b.
Proof.
  rewrite apply_rows_Forall2. induction 1 as [|a b' l l' Hab _ IH].
  - intros [].
  - intros [<-|Hin].
    + exists a. split; [now left|assumption].
    + destruct (IH Hin) as [a' [Ha' Hf]]. exists a'. split; [now right|easy].
Qed.

Lemma apply_rows_length {A B : Type} (f : A -> result B) (l : list A)
      (l' : list B) :
  apply_rows f l = Ok l' -> List.length l' = List.length l.
Proof.
  rewrite apply_rows_Forall2. induction 1; cbn; congruence.
Qed.

(** A traversal succeeds on a list exactly when it does on each element;
    reordering the list reorders the result. *)
Lemma apply_rows_Permutation {A B : Type} (f : A -> result B)
      (l1 l2 : list A) :
  Permutation l1 l2 ->
  forall r1, apply_rows f l1 = Ok r1 ->
  exists r2, apply_rows f l2 = Ok r2 /\ Permutation r1 r2.
Proof.
  induction 1 as [|a l1 l2 _ IH|a b l|l1 l2 l3 _ IH1 _ IH2]; intros r1; cbn.
  - intros H. injection H as <-. exists []. split; [reflexivity|constructor].
  - destruct (f a) as [fa|]; cbn; [|discriminate].
    destruct (apply_rows f l1) as [r|] eqn:E; cbn; [|discriminate].
    intros H. injection H as <-.
    destruct (IH r eq_refl) as [r2 [-> Hp]]. cbn.
    exists (fa :: r2). split; [reflexivity|now constructor].
  - destruct (f b) as [fb|]; cbn; [|discriminate].
    destruct (f a) as [fa|]; cbn; [|discriminate].
    destruct (apply_rows f l) as [r|]; cbn; [|discriminate].
    intros H. injection H as <-.
    exists (fa :: fb :: r). split; [reflexivity|constructor].
  - intros H1. destruct (IH1 r1 H1) as [r2 [H2 Hp12]].
    destruct (IH2 r2 H2) as [r3 [H3 Hp23]].
    exists r3. split; [assumption|]. now transitivity r2.
Qed.

(** ** [sorted] *)

Section SortedFacts.
Context {A : Type} (leb : A -> A -> bool).

Lemma insert_Permutation (x : A) (l : list A) :
  Permutation (insert leb x l) (x :: l).
Proof.
  induction l as [|y l IH]; cbn; [reflexivity|].
  destruct (leb x y); [reflexivity|].
  rewrite IH. constructor.
Qed.

Lemma sorted_Permutation (l : list A) : Permutation (sorted leb l) l.
Proof.
  induction l as [|x l IH]; cbn; [constructor|].
  rewrite insert_Permutation. now constructor.
Qed.

Lemma sorted_In (l : list A) (x : A) : In x (sorted leb l) <-> In x l.
Proof.
  split; apply Permutation_in;
    [|apply Permutation_sym]; apply sorted_Permutation.
Qed.

Lemma sorted_length (l : list A) :
  List.length (sorted leb l) = List.length l.
Proof. apply Permutation_length, sorted_Permutation. Qed.
End SortedFacts.

(** ** [groupby] *)

Section UniqueFacts.
Context {K : Type} (eqb : K -> K -> bool).
Hypothesis eqb_eq : forall a b, eqb a b = true <-> a = b.

Lemma unique_In (l : list K) (k : K) : In k (unique eqb l) <-> In k l.
Proof.
  induction l as [|a l IH]; cbn; [tauto|].
  rewrite filter_In, IH, negb_true_iff.
  destruct (eqb a k) eqn:E.
  - apply eqb_eq in E. subst. intuition congruence.
  - assert (a <> k) by (intros ->; rewrite (proj2 (eqb_eq k k)) in E;
                        [discriminate|reflexivity]).
    intuition congruence.
Qed.

Lemma unique_NoDup (l : list K) : NoDup (unique eqb l).
Proof.
  induction l as [|a l IH]; cbn; constructor.
  - rewrite filter_In, negb_true_iff. intros [_ H].
    rewrite (proj2 (eqb_eq a a) eq_refl) in H. discriminate.
  - now apply NoDup_filter.
Qed.

End UniqueFacts.

Section GroupByFacts.
Context {K : Type} (eqb leb : K -> K -> bool) (key : Row -> K).
Hypothesis eqb_eq : forall a b, eqb a b = true <-> a = b.

Lemma groupby_keys (df : list Row) :
  map fst (groupby eqb leb key df) = sorted leb (unique eqb (map key df)).
Proof.
  unfold groupby. rewrite map_map. cbn. apply map_id.
Qed.

Lemma groupby_keys_NoDup (df : list Row) :
  NoDup (map fst (groupby eqb leb key df)).
Proof.
  rewrite groupby_keys.
  eapply Permutation_NoDup;
    [apply Permutation_sym, sorted_Permutation
    |now apply unique_NoDup].
Qed.

Lemma groupby_In (df : list Row) (k : K) (g : list Row) :
  In (k, g) (groupby eqb leb key df) <->
  In k (map key df) /\ g = filter (fun r => eqb (key r) k) df.
Proof.
  unfold groupby. rewrite in_map_iff. split.
  - intros [k' [H Hin]]. injection H as -> <-.
    now rewrite sorted_In, (unique_In eqb eqb_eq) in Hin.
  - intros [Hin ->]. exists k. split; [reflexivity|].
    now rewrite sorted_In, (unique_In eqb eqb_eq).
Qed.
End GroupByFacts.

(** ** The frame *)

Lemma main_inv (rt : runtime) (rows : list RawRow) (out : outputs) :
  main rt rows = Ok out ->
  exists df, build_frame rt rows = Ok df
             /\ rounds out = build_rounds rt df
             /\ ladders out = build_ladders df
             /\ handicaps out = build_handicaps rt df
             /\ players out = build_players df.
Proof.
  unfold main. destruct (build_frame rt rows) as [df|]; cbn; [|discriminate].
  intros H. injection H as <-. exists df. cbn. repeat split.
Qed.

Lemma parse_row_inv (rt : runtime) (row : RawRow) (p : ParsedRow) :
  parse_row rt row = Ok p ->
  p_raw p = row /\ p_PlayerName p = canonical_name rt row
  /\ parse_udisc_dt rt (StartDate row) = Ok (p_StartDT p)
  /\ parse_udisc_dt rt (EndDate row) = Ok (p_EndDT p).
Proof.
  unfold parse_row.
  destruct (parse_udisc_dt rt (StartDate row)); cbn; [|discriminate].
  destruct (parse_udisc_dt rt (EndDate row)); cbn; [|discriminate].
  intros H. injection H as <-. cbn. repeat split.
Qed.

Lemma derive_row_inv (rt : runtime) (p : ParsedRow) (r : Row) :
  derive_row rt p = Ok r ->
  raw r = p_raw p /\ Player r = p_PlayerName p
  /\ StartDT r = p_StartDT p
  /\ RoundRatingNum r = to_numeric_coerce rt (RoundRating (p_raw p))
  /\ IsRated r = match RoundRatingNum r with Some _ => true | None => false end
  /\ CourseKey r = course_key rt (p_raw p)
  /\ RoundId r = round_id rt (p_PlayerName p) (course_key rt (p_raw p))
                           (StartDate (p_raw p)) (Total (p_raw p))
  /\ exists s, season_for (dt_date (p_StartDT p)) = Ok s
               /\ SeasonType r = season_type s
               /\ SeasonLabel r = season_label s.
Proof.
  unfold derive_row.
  destruct (season_for (dt_date (p_StartDT p))) as [s|]; cbn; [|discriminate].
  intros H. injection H as <-. cbn. repeat split.
  exists s. repeat split.
Qed.

Lemma build_frame_rows (rt : runtime) (rows : list RawRow) (df : list Row) :
  build_frame rt rows = Ok df -> Forall (frame_row rt rows) df.
Proof.
  unfold build_frame.
  destruct (apply_rows (parse_row rt) rows) as [parsed|] eqn:Ep; cbn;
    [|discriminate].
  intros Hd. apply Forall_forall. intros r Hr.
  destruct (apply_rows_In _ _ _ _ Hd Hr) as [p [Hp Hpr]].
  apply filter_In in Hp. destruct Hp as [Hp Hk].
  destruct (apply_rows_In _ _ _ _ Ep Hp) as [row [Hrow Hparse]].
  apply parse_row_inv in Hparse. destruct Hparse as [Hraw [Hname [Hs _]]].
  apply derive_row_inv in Hpr.
  destruct Hpr as [H1 [H2 [H3 [H4 [H5 [H6 [H7 [s [Hs1 [Hs2 Hs3]]]]]]]]]].
  unfold keep_row in Hk. apply andb_true_iff in Hk. destruct Hk as [Hk1 Hk2].
  constructor.
  - congruence.
  - congruence.
  - congruence.
  - congruence.
  - congruence.
  - assumption.
  - congruence.
  - rewrite H7. unfold round_id, id_text. rewrite H1, H2, H6. reflexivity.
  - rewrite H1, H3, Hraw. assumption.
  - unfold classify. rewrite H3, Hs1. cbn. congruence.
Qed.



Lemma isna_true (c : cell) : isna c = true <-> c = NaN.
Proof. destruct c; cbn; split; congruence. Qed.

Lemma full_18_only_spec (row : RawRow) :
  full_18_only row = true <-> complete_round row.
Proof.
  unfold full_18_only, has_all_18, has_extra, complete_round,
    hole_1_18, hole_19_plus.
  rewrite andb_true_iff, !negb_true_iff.
  rewrite <- !not_true_iff_false, !existsb_exists.
  split.
  - intros [H1 H2]. split.
    + intros i Hi Hna. apply H1. exists i. split; [apply in_seq; lia|].
      now apply isna_true.
    + intros i Hi. destruct (Hole row i) eqn:E; [reflexivity| |];
        exfalso; apply H2; exists i; (split; [apply in_seq; lia|]);
        unfold notna; rewrite E; reflexivity.
  - intros [H1 H2]. split.
    + intros [i [Hi Hna]]. apply in_seq in Hi. apply isna_true in Hna.
      apply (H1 i); [lia|assumption].
    + intros [i [Hi Hna]]. apply in_seq in Hi. unfold notna in Hna.
      rewrite (H2 i) in Hna; [discriminate|lia].
Qed.

Section Rounds.
Variable rt : runtime.
Hypothesis sort_ok : sort_values_permutes rt.

Lemma build_rounds_In (df : list Row) (rec : RoundRecord) :
  In rec (build_rounds rt df) <-> exists r, In r df /\ rec = round_record rt r.
Proof.
  unfold build_rounds. rewrite in_map_iff. split.
  - intros [r [<- Hr]]. exists r. split; [|reflexivity].
    eapply Permutation_in; [apply sort_ok|eassumption].
  - intros [r [Hr ->]]. exists r. split; [reflexivity|].
    eapply Permutation_in; [apply Permutation_sym, sort_ok|assumption].
Qed.

(** C3.  A row of the export reaches the frame, and from there
    rounds.json, only if its holes 1 to 18 all carry a score and its holes
    19 to 27 carry none; a row that misses one of the first or has one of
    the last is in neither, whatever its other columns hold. *)
Theorem only_full_rounds (rows : list RawRow) (out : outputs) :
  main rt rows = Ok out ->
  exists df,
    build_frame rt rows = Ok df
    /\ (forall r, In r df -> In (raw r) rows /\ complete_round (raw r))
    /\ (forall rec, In rec (rounds out) ->
        exists r, In r df /\ rec = round_record rt r
                  /\ complete_round (raw r))
    /\ (forall row i,
          ((1 <= i <= 18)%nat /\ Hole row i = NaN)
          \/ ((19 <= i <= 27)%nat /\ Hole row i <> NaN) ->
          ~ In row (map raw df)).
Proof.
  intros Hm. destruct (main_inv _ _ _ Hm) as [df [Hdf [Hr _]]].
  exists df. split; [assumption|].
  pose proof (build_frame_rows _ _ _ Hdf) as Hall.
  rewrite Forall_forall in Hall.
  assert (Hc : forall r, In r df -> complete_round (raw r)).
  { intros r Hin. apply full_18_only_spec, (fr_full _ _ _ (Hall r Hin)). }
  split; [|split].
  - intros r Hin. split; [apply (fr_raw _ _ _ (Hall r Hin))|now apply Hc].
  - intros rec Hrec. rewrite Hr in Hrec. apply build_rounds_In in Hrec.
    destruct Hrec as [r [Hin ->]]. exists r. auto.
  - intros row i Hi Hin. apply in_map_iff in Hin.
    destruct Hin as [r [<- Hin]]. destruct (Hc r Hin) as [H1 H2].
    destruct Hi as [[Hi Hna]|[Hi Hna]].
    + now apply (H1 i).
    + now apply Hna, H2.
Qed.

End Rounds.

(** ** Handicaps *)

Lemma clamp_multiple (v : Q) (n : Z) :
  (v == inject_Z n * (1 # 2))%Q ->
  let h := py_max (- HANDICAP_CAP) (py_min HANDICAP_CAP v) in
  (- (6) <= h /\ h <= 6)%Q /\ exists m : Z, (h == inject_Z m * (1 # 2))%Q.
Proof.
  intros Hv. unfold py_max, py_min, HANDICAP_CAP.
  destruct (Qlt_bool v 6) eqn:E1.
  - apply Qlt_bool_iff in E1.
    destruct (Qlt_bool (- (6)) v) eqn:E2.
    + apply Qlt_bool_iff in E2. split; [lra|]. now exists n.
    + split; [lra|]. exists (-12). reflexivity.
  - apply Qlt_bool_false in E1.
    destruct (Qlt_bool (- (6)) 6) eqn:E2.
    + split; [lra|]. exists 12. reflexivity.
    + apply Qlt_bool_false in E2. lra.
Qed.

(** The clamp leaves a value strictly inside the cap alone. *)
Lemma clamp_inside (v : Q) :
  (- (6) < v)%Q -> (v < 6)%Q ->
  py_max (- HANDICAP_CAP) (py_min HANDICAP_CAP v) = v.
Proof.
  intros H1 H2. unfold py_max, py_min, HANDICAP_CAP.
  rewrite (proj2 (Qlt_bool_iff v 6) H2).
  now rewrite (proj2 (Qlt_bool_iff (- (6)) v) H1).
Qed.

Lemma dict_get_keys (f : string -> option Q) (ks : list string) (p : string) :
  (In p ks -> dict_get (map (fun k => (k, f k)) ks) p = f p)
  /\ (~ In p ks -> dict_get (map (fun k => (k, f k)) ks) p = None).
Proof.
  induction ks as [|k ks [IH1 IH2]]; cbn; [tauto|].
  destruct (String.eqb k p) eqn:E.
  - apply String.eqb_eq in E. subst. tauto.
  - apply String.eqb_neq in E. split.
    + intros [H|H]; [congruence|auto].
    + intros H. apply IH2. tauto.
Qed.

Lemma handicap_entry_player pf ref p : h_player (handicap_entry pf ref p) = p.
Proof.
  unfold handicap_entry. destruct ref, (dict_get pf p); reflexivity.
Qed.


Lemma handicap_entry_index pf ref p :
  ref <> None -> form_index (handicap_entry pf ref p) = dict_get pf p.
Proof.
  unfold handicap_entry. destruct ref; [|congruence].
  destruct (dict_get pf p); reflexivity.
Qed.

Lemma dropna_In (l : list (option Q)) (x : Q) :
  In x (dropna l) <-> In (Some x) l.
Proof.
  induction l as [|[y|] l IH]; cbn; [tauto| |].
  - rewrite IH. split; intros [H|H]; auto.
    + left. congruence.
    + left. congruence.
  - rewrite IH. split; [auto|]. intros [H|H]; [discriminate|assumption].
Qed.

Lemma reference_defined (pf : list (string * option Q)) (p : string) (f : Q) :
  dict_get pf p = Some f -> reference pf <> None.
Proof.
  intros H. unfold reference.
  assert (Hin : In f (eligible_forms pf)).
  { unfold eligible_forms. apply dropna_In.
    induction pf as [|[k v] pf IH]; cbn in *; [discriminate|].
    destruct (String.eqb k p); [left; assumption|right; auto]. }
  destruct (eligible_forms pf); [destruct Hin|discriminate].
Qed.

Section PlayerForm.
Variable rt : runtime.

Lemma player_form_eq (df : list Row) :
  player_form rt df
  = map (fun k => (k, form_of_group rt (rated_rounds_of df k)))
        (sorted String.leb (unique String.eqb (map Player (rated_df df)))).
Proof.
  unfold player_form, groupby. rewrite map_map. reflexivity.
Qed.

Lemma player_form_keys (df : list Row) (p : string) :
  In p (map fst (player_form rt df)) <-> In p (map Player (rated_df df)).
Proof.
  rewrite player_form_eq, map_map. cbn. rewrite map_id, sorted_In.
  apply unique_In. apply String.eqb_eq.
Qed.



Lemma build_handicaps_In (df : list Row) (e : HandicapEntry) :
  In e (build_handicaps rt df) ->
  In (h_player e) TRACKED_PLAYERS
  /\ e = handicap_entry (player_form rt df) (reference (player_form rt df))
                        (h_player e).
Proof.
  unfold build_handicaps. rewrite in_map_iff. intros [p [<- Hp]].
  rewrite handicap_entry_player. split; [|reflexivity].
  unfold sorted_str in Hp. now rewrite sorted_In in Hp.
Qed.
End PlayerForm.

Lemma isin_In (x : string) (s : list string) : isin x s = true <-> In x s.
Proof.
  unfold isin. rewrite existsb_exists. split.
  - intros [y [Hy E]]. apply String.eqb_eq in E. now subst.
  - intros H. exists x. split; [assumption|apply String.eqb_refl].
Qed.

(** ** Sums *)

Lemma fold_left_Qplus_acc (l : list Q) (a : Q) :
  (fold_left Qplus l a == a + fold_left Qplus l 0)%Q.
Proof.
  revert a. induction l as [|x l IH]; intros a; cbn.
  - lra.
  - rewrite (IH (a + x)%Q), (IH (0 + x)%Q). lra.
Qed.

Lemma sum_cons (x : Q) (l : list Q) : (sum (x :: l) == x + sum l)%Q.
Proof.
  unfold sum. cbn. rewrite fold_left_Qplus_acc. lra.
Qed.

Lemma sum_app (l1 l2 : list Q) : (sum (l1 ++ l2) == sum l1 + sum l2)%Q.
Proof.
  induction l1 as [|x l1 IH]; cbn [app].
  - change (sum []) with 0%Q. lra.
  - rewrite !sum_cons, IH. lra.
Qed.

Lemma sum_Permutation (l1 l2 : list Q) :
  Permutation l1 l2 -> (sum l1 == sum l2)%Q.
Proof.
  induction 1 as [|x l1 l2 _ IH|x y l|l1 l2 l3 _ IH1 _ IH2].
  - reflexivity.
  - rewrite !sum_cons, IH. reflexivity.
  - rewrite !sum_cons. lra.
  - now rewrite IH1.
Qed.

Lemma sum_Forall2 (l1 l2 : list Q) :
  Forall2 Qeq l1 l2 -> (sum l1 == sum l2)%Q.
Proof.
  induction 1 as [|x y l1 l2 Hxy _ IH]; [reflexivity|].
  rewrite !sum_cons, Hxy, IH. reflexivity.
Qed.

Lemma take_all {A : Type} (n : Z) (l : list A) : len l <= n -> take n l = l.
Proof.
  unfold take, len. intros H. apply firstn_all2. lia.
Qed.

Lemma len_take {A : Type} (n : Z) (l : list A) :
  0 <= n -> len (take n l) = Z.min n (len l).
Proof.
  unfold take, len. intros H. rewrite length_firstn. lia.
Qed.


Lemma dropna_single (F : string -> option Q) (ks : list string)
      (p : string) (f : Q) :
  NoDup ks -> In p ks -> F p = Some f ->
  (forall k, In k ks -> k <> p -> F k = None) ->
  dropna (map F ks) = [f].
Proof.
  intros Hnd Hin Hp Hother.
  induction ks as [|k ks IH]; [destruct Hin|].
  inversion Hnd as [|? ? Hk Hnd']; subst. cbn.
  assert (Hnone : forall l, ~ In p l ->
            (forall k', In k' l -> k' <> p -> F k' = None) ->
            dropna (map F l) = []).
  { induction l as [|a l IHl]; [reflexivity|]. cbn. intros Hn Ho.
    rewrite (Ho a); [|now left|intros ->; apply Hn; now left].
    apply IHl; [tauto|]. intros k' Hk'. apply Ho. now right. }
  destruct Hin as [->|Hin].
  - rewrite Hp. f_equal. apply Hnone; [assumption|].
    intros k' Hk'. apply Hother. now right.
  - rewrite (Hother k); [|now left|intros ->; contradiction].
    apply IH; [assumption|assumption|].
    intros k' Hk'. apply Hother. now right.
Qed.


Section Handicaps.
Variable rt : runtime.

Lemma handicaps_inv (rows : list RawRow) (out : outputs) :
  main rt rows = Ok out ->
  exists df, build_frame rt rows = Ok df
             /\ handicaps out = build_handicaps rt df.
Proof.
  intros Hm. destruct (main_inv _ _ _ Hm) as [df [Hdf [_ [_ [Hh _]]]]].
  now exists df.
Qed.

(** C2.  A handicap that is there lies between -6 and 6 and is a whole
    number of halves. *)
Theorem handicap_bounded (rows : list RawRow) (out : outputs)
        (e : HandicapEntry) (h : Q) :
  main rt rows = Ok out ->
  In e (handicaps out) ->
  handicap e = Some h ->
  (- (6) <= h /\ h <= 6)%Q /\ exists m : Z, (h == inject_Z m * (1 # 2))%Q.
Proof.
  intros Hm He Hh. destruct (handicaps_inv _ _ Hm) as [df [_ Hout]].
  rewrite Hout in He. apply build_handicaps_In in He.
  destruct He as [_ He]. rewrite He in Hh. unfold handicap_entry in Hh.
  destruct (reference (player_form rt df)) as [ref|];
    [|discriminate].
  destruct (dict_get (player_form rt df) (h_player e)) as [f|];
    [|discriminate].
  cbn in Hh. injection Hh as <-.
  apply (clamp_multiple _ _ (round_half_multiple _)).
Qed.

End Handicaps.

Section Window.
Variable rt : runtime.
Hypothesis sort_ok : sort_values_permutes rt.





End Window.

Section Reference.
Variable rt : runtime.

Lemma player_form_values (df : list Row) :
  exists F ks,
    player_form rt df = map (fun k => (k, F k)) ks
    /\ NoDup ks
    /\ (forall k, In k ks <-> In k (map Player (rated_df df)))
    /\ (forall k, In k ks -> dict_get (player_form rt df) k = F k)
    /\ (forall k, ~ In k ks -> dict_get (player_form rt df) k = None).
Proof.
  exists (fun k => form_of_group rt (rated_rounds_of df k)),
         (sorted String.leb (unique String.eqb (map Player (rated_df df)))).
  split; [apply player_form_eq|]. split.
  { eapply Permutation_NoDup;
      [apply Permutation_sym, sorted_Permutation|].
    apply unique_NoDup, String.eqb_eq. }
  split.
  { intros k. rewrite sorted_In. apply unique_In, String.eqb_eq. }
  rewrite player_form_eq.
  split; intros k; apply dict_get_keys.
Qed.

(** C9.  When one entry of handicaps.json has a form index and no entry
    of another player has one, the reference rating of that entry equals
    its form index and its handicap is 0. *)
Theorem lone_player_is_the_reference (rows : list RawRow) (out : outputs)
        (e : HandicapEntry) (f : Q) :
  main rt rows = Ok out ->
  In e (handicaps out) ->
  form_index e = Some f ->
  (forall e', In e' (handicaps out) -> h_player e' <> h_player e ->
              form_index e' = None) ->
  exists ref h,
    reference_rating e = Some ref /\ (ref == f)%Q
    /\ handicap e = Some h /\ (h == 0)%Q
    /\ status e = STATUS_OK.
Proof.
  intros Hm He Hf Hothers.
  destruct (handicaps_inv _ _ _ Hm) as [df [Hdf Hout]].
  rewrite Hout in He, Hothers.
  pose proof (build_frame_rows _ _ _ Hdf) as Hall.
  rewrite Forall_forall in Hall.
  set (pf := player_form rt df) in *.
  apply build_handicaps_In in He. fold pf in He. destruct He as [_ He].
  remember (h_player e) as p eqn:Hp. clear Hp.
  (* the player has a form index, so there is a reference *)
  assert (Hget : dict_get pf p = Some f).
  { rewrite He in Hf. unfold handicap_entry in Hf.
    destruct (reference pf), (dict_get pf p); cbn in Hf; congruence. }
  pose proof (reference_defined _ _ _ Hget) as Href.
  (* no other key of [player_form] holds a form index *)
  destruct (player_form_values df) as [F [ks [Hpf [Hnd [Hks [Hin Hout']]]]]].
  fold pf in Hpf, Hin, Hout'.
  assert (Hpin : In p ks).
  { destruct (in_dec string_dec p ks) as [H|H]; [assumption|].
    rewrite (Hout' p H) in Hget. discriminate. }
  assert (Hnone : forall k, In k ks -> k <> p -> F k = None).
  { intros k Hk Hkp. rewrite <- (Hin k Hk).
    assert (Htr : In k TRACKED_PLAYERS).
    { apply Hks, in_map_iff in Hk. destruct Hk as [r [<- Hr]].
      apply filter_In in Hr. destruct Hr as [Hr _].
      apply isin_In, (fr_tracked _ _ _ (Hall r Hr)). }
    assert (Hk' : In (handicap_entry pf (reference pf) k)
                     (build_handicaps rt df)).
    { unfold build_handicaps. fold pf. apply in_map.
      unfold sorted_str. now apply sorted_In. }
    specialize (Hothers _ Hk'). rewrite handicap_entry_player in Hothers.
    rewrite (handicap_entry_index _ _ _ Href) in Hothers.
    apply Hothers. assumption. }
  assert (Hel : eligible_forms pf = [f]).
  { unfold eligible_forms. rewrite Hpf, map_map. cbn [snd].
    apply (dropna_single F ks p f Hnd Hpin); [|assumption].
    now rewrite <- (Hin p Hpin). }
  assert (Hr : reference pf = Some (sum [f] / inject_Z (len [f]))%Q).
  { unfold reference. rewrite Hel. reflexivity. }
  set (ref := (sum [f] / inject_Z (len [f]))%Q) in *.
  assert (Hrf : (ref == f)%Q).
  { unfold ref, sum, len. cbn. field. }
  rewrite He. unfold handicap_entry. rewrite Hr, Hget. cbn.
  set (v := round_half ((ref - f) / HANDICAP_POINTS_PER_STROKE)).
  assert (Hv : (v == 0)%Q).
  { unfold v.
    assert (H0 : ((ref - f) / HANDICAP_POINTS_PER_STROKE == 0)%Q).
    { rewrite Hrf. unfold HANDICAP_POINTS_PER_STROKE. field. }
    rewrite (round_half_comp _ _ H0). reflexivity. }
  exists ref, (py_max (- HANDICAP_CAP) (py_min HANDICAP_CAP v)).
  split; [reflexivity|]. split; [assumption|].
  split; [reflexivity|]. split; [|reflexivity].
  rewrite clamp_inside; [assumption|lra|lra].
Qed.
End Reference.

(** ** [sorted(..., reverse=True)] on ratings *)

Lemma sorted_reverse_eq (l : list Q) : sorted_reverse l = sorted geb_Q l.
Proof. reflexivity. Qed.

Lemma geb_Q_true (x y : Q) : geb_Q x y = true <-> (y <= x)%Q.
Proof. apply Qle_bool_iff. Qed.

Lemma geb_Q_false (x y : Q) : geb_Q x y = false <-> (x < y)%Q.
Proof.
  unfold geb_Q. split.
  - intros H. apply Qnot_le_lt. intros Hle. apply Qle_bool_iff in Hle.
    congruence.
  - intros H. destruct (Qle_bool y x) eqn:E; [|reflexivity].
    apply Qle_bool_iff in E. lra.
Qed.

Lemma Forall2_Qeq_refl (l : list Q) : Forall2 Qeq l l.
Proof. induction l; constructor; [reflexivity|assumption]. Qed.

Lemma Forall2_Qeq_trans (l1 l2 l3 : list Q) :
  Forall2 Qeq l1 l2 -> Forall2 Qeq l2 l3 -> Forall2 Qeq l1 l3.
Proof.
  intros H. revert l3. induction H as [|x y l1 l2 Hxy _ IH]; intros l3 H23.
  - assumption.
  - inversion H23 as [|? z ? l3' Hyz H']; subst. constructor.
    + now rewrite Hxy.
    + now apply IH.
Qed.

Ltac order_cases :=
  repeat match goal with
         | H : geb_Q _ _ = true |- _ => apply geb_Q_true in H
         | H : geb_Q _ _ = false |- _ => apply geb_Q_false in H
         end.

Lemma insert_Forall2 (x : Q) (l1 l2 : list Q) :
  Forall2 Qeq l1 l2 ->
  Forall2 Qeq (insert geb_Q x l1) (insert geb_Q x l2).
Proof.
  induction 1 as [|a b l1 l2 Hab Hl IH]; cbn.
  - apply Forall2_Qeq_refl.
  - destruct (geb_Q x a) eqn:Ea, (geb_Q x b) eqn:Eb; order_cases;
      try (exfalso; lra).
    + constructor; [reflexivity|]. constructor; assumption.
    + constructor; assumption.
Qed.

Lemma insert_insert (x y : Q) (l : list Q) :
  Forall2 Qeq (insert geb_Q x (insert geb_Q y l))
              (insert geb_Q y (insert geb_Q x l)).
Proof.
  induction l as [|z l IH]; cbn.
  - destruct (geb_Q x y) eqn:Exy, (geb_Q y x) eqn:Eyx; order_cases;
      try (exfalso; lra); repeat constructor; lra.
  - destruct (geb_Q y z) eqn:Eyz, (geb_Q x z) eqn:Exz; cbn;
      rewrite ?Eyz, ?Exz;
      destruct (geb_Q x y) eqn:Exy, (geb_Q y x) eqn:Eyx; order_cases;
      try (exfalso; lra);
      repeat (try apply Forall2_Qeq_refl; try assumption;
              constructor; try lra).
Qed.

(** Reordering the ratings changes their sorted list by equal floats
    only. *)
Lemma sorted_reverse_Permutation (l1 l2 : list Q) :
  Permutation l1 l2 ->
  Forall2 Qeq (sorted_reverse l1) (sorted_reverse l2).
Proof.
  rewrite !sorted_reverse_eq.
  induction 1 as [|x l1 l2 _ IH|x y l|l1 l2 l3 _ IH1 _ IH2]; cbn.
  - constructor.
  - now apply insert_Forall2.
  - apply insert_insert.
  - eapply Forall2_Qeq_trans; eassumption.
Qed.

Lemma insert_sorted (x : Q) (l : list Q) :
  StronglySorted (fun a b => (b <= a)%Q) l ->
  StronglySorted (fun a b => (b <= a)%Q) (insert geb_Q x l).
Proof.
  induction 1 as [|y l Hl IH Hy]; cbn.
  - repeat constructor.
  - destruct (geb_Q x y) eqn:E; order_cases.
    + constructor; [now constructor|]. constructor; [assumption|].
      rewrite Forall_forall in *. intros z Hz. specialize (Hy z Hz). lra.
    + constructor; [assumption|].
      rewrite Forall_forall in *. intros z Hz.
      apply (Permutation_in _ (insert_Permutation geb_Q x l)) in Hz.
      destruct Hz as [<-|Hz]; [lra|auto].
Qed.

Lemma sorted_reverse_sorted (l : list Q) :
  StronglySorted (fun a b => (b <= a)%Q) (sorted_reverse l).
Proof.
  rewrite sorted_reverse_eq. induction l as [|x l IH]; cbn.
  - constructor.
  - now apply insert_sorted.
Qed.

Lemma insert_app (x : Q) (t s : list Q) :
  (forall z, In z s -> (z <= x)%Q) ->
  insert geb_Q x (t ++ s)%list = (insert geb_Q x t ++ s)%list.
Proof.
  intros Hs. induction t as [|y t IH]; cbn.
  - destruct s as [|z s]; [reflexivity|]. cbn.
    now rewrite (proj2 (geb_Q_true x z) (Hs z (or_introl eq_refl))).
  - destruct (geb_Q x y); [reflexivity|]. now rewrite IH.
Qed.

Lemma sorted_reverse_app (hi lo : list Q) :
  (forall x y, In x hi -> In y lo -> (y <= x)%Q) ->
  sorted_reverse (hi ++ lo)%list
  = (sorted_reverse hi ++ sorted_reverse lo)%list.
Proof.
  rewrite !sorted_reverse_eq. intros H.
  induction hi as [|x hi IH]; [reflexivity|].
  change (insert geb_Q x (sorted geb_Q (hi ++ lo))
          = (insert geb_Q x (sorted geb_Q hi) ++ sorted geb_Q lo)%list).
  rewrite IH by (intros; apply H; [now right|assumption]).
  apply insert_app. intros z Hz. apply sorted_In in Hz.
  apply H; [now left|assumption].
Qed.

Lemma take_Forall2 (n : Z) (l1 l2 : list Q) :
  Forall2 Qeq l1 l2 -> Forall2 Qeq (take n l1) (take n l2).
Proof.
  unfold take. generalize (Z.to_nat n) as k. intros k H. revert k.
  induction H as [|x y l1 l2 Hxy _ IH]; intros [|k]; cbn;
    constructor; auto.
Qed.

(** The sum of the [n] first of the sorted ratings is the sum of any [n] of
    the ratings that are at least as high as all the others. *)
Lemma sum_take_sorted_reverse (n : Z) (rs hi lo : list Q) :
  Permutation rs (hi ++ lo)%list ->
  len hi = n ->
  (forall x y, In x hi -> In y lo -> (y <= x)%Q) ->
  (sum (take n (sorted_reverse rs)) == sum hi)%Q.
Proof.
  intros Hp Hn Hdom.
  rewrite (sum_Forall2 _ _ (take_Forall2 n _ _
                              (sorted_reverse_Permutation _ _ Hp))).
  rewrite (sorted_reverse_app hi lo Hdom).
  unfold take.
  assert (Hl : Z.to_nat n = List.length (sorted_reverse hi)).
  { unfold sorted_reverse. rewrite sorted_length. unfold len in Hn. lia. }
  rewrite Hl, firstn_app, Nat.sub_diag, firstn_all. cbn.
  rewrite app_nil_r. apply sum_Permutation. apply sorted_Permutation.
Qed.

(** Such a choice exists: the [n] first of the sorted ratings. *)
Lemma sorted_reverse_split (n : Z) (rs : list Q) :
  0 <= n ->
  exists hi lo,
    Permutation rs (hi ++ lo)%list /\ len hi = Z.min n (len rs)
    /\ (forall x y, In x hi -> In y lo -> (y <= x)%Q)
    /\ hi = take n (sorted_reverse rs).
Proof.
  intros Hn.
  exists (take n (sorted_reverse rs)),
         (skipn (Z.to_nat n) (sorted_reverse rs)).
  split; [|split; [|split; [|reflexivity]]].
  - unfold take. rewrite firstn_skipn. apply Permutation_sym.
    apply sorted_Permutation.
  - rewrite len_take by assumption. unfold len, sorted_reverse.
    now rewrite sorted_length.
  - pose proof (sorted_reverse_sorted rs) as Hs.
    unfold take. rewrite <- (firstn_skipn (Z.to_nat n) (sorted_reverse rs))
      in Hs.
    generalize dependent (skipn (Z.to_nat n) (sorted_reverse rs)).
    generalize (firstn (Z.to_nat n) (sorted_reverse rs)).
    intros h. induction h as [|a h IH]; intros l Hs x y Hx Hy;
      [destruct Hx|].
    cbn in Hs. inversion Hs as [|? ? Hs' Hall]; subst.
    destruct Hx as [<-|Hx].
    + rewrite Forall_forall in Hall. apply Hall, in_or_app. now right.
    + eapply IH; eassumption.
Qed.

(** ** Ladders *)

Lemma pair_eqb_eq (a b : string * string) : pair_eqb a b = true <-> a = b.
Proof.
  destruct a, b. unfold pair_eqb. cbn.
  rewrite andb_true_iff, !String.eqb_eq. split.
  - intros [-> ->]. reflexivity.
  - intros H. injection H as -> ->. auto.
Qed.

Lemma filter_Permutation {A : Type} (f : A -> bool) (l1 l2 : list A) :
  Permutation l1 l2 -> Permutation (filter f l1) (filter f l2).
Proof.
  induction 1 as [|x l1 l2 _ IH|x y l|l1 l2 l3 _ IH1 _ IH2]; cbn.
  - constructor.
  - destruct (f x); [now constructor|assumption].
  - destruct (f x), (f y); try reflexivity. constructor.
  - now transitivity (filter f l2).
Qed.

Lemma dropna_Permutation (l1 l2 : list (option Q)) :
  Permutation l1 l2 -> Permutation (dropna l1) (dropna l2).
Proof.
  induction 1 as [|x l1 l2 _ IH|x y l|l1 l2 l3 _ IH1 _ IH2]; cbn.
  - constructor.
  - destruct x; [now constructor|assumption].
  - destruct x, y; try reflexivity. constructor.
  - now transitivity (dropna l2).
Qed.

Lemma season_ratings_Permutation (df df' : list Row) (s p : string) :
  Permutation df df' ->
  Permutation (season_ratings df s p) (season_ratings df' s p).
Proof.
  intros H. unfold season_ratings, rated_df.
  apply dropna_Permutation, Permutation_map.
  now do 2 apply filter_Permutation.
Qed.

Lemma build_frame_Permutation (rt : runtime) (rows rows' : list RawRow)
      (df : list Row) :
  Permutation rows rows' ->
  build_frame rt rows = Ok df ->
  exists df', build_frame rt rows' = Ok df' /\ Permutation df df'.
Proof.
  intros Hp. unfold build_frame.
  destruct (apply_rows (parse_row rt) rows) as [parsed|] eqn:E; cbn;
    [|discriminate].
  destruct (apply_rows_Permutation _ _ _ Hp _ E) as [parsed' [-> Hpp]].
  cbn. intros Hd.
  apply (apply_rows_Permutation (derive_row rt)
           (filter keep_row parsed) (filter keep_row parsed')); [|assumption].
  now apply filter_Permutation.
Qed.

Lemma build_ladders_In (df : list Row) (e : LadderEntry) :
  In e (build_ladders df) <->
  exists r, In r (rated_df df)
            /\ e = ladder_entry (SeasonLabel r, Player r)
                     (filter (fun r' => pair_eqb (SeasonLabel r', Player r')
                                                 (SeasonLabel r, Player r))
                             (rated_df df)).
Proof.
  unfold build_ladders. rewrite in_map_iff. split.
  - intros [[k g] [<- H]]. apply (groupby_In _ _ _ pair_eqb_eq) in H.
    destruct H as [Hk ->]. apply in_map_iff in Hk.
    destruct Hk as [r [<- Hr]]. exists r. split; [assumption|reflexivity].
  - intros [r [Hr ->]].
    eexists (_, _). split; [reflexivity|].
    apply (groupby_In _ _ _ pair_eqb_eq). split; [|reflexivity].
    apply in_map_iff. exists r. split; [reflexivity|assumption].
Qed.

Lemma ladder_entry_total (k : string * string) (g : list Row) :
  dropna (map RoundRatingNum g) <> [] ->
  season_total_best10 (ladder_entry k g)
  = Some (sum (take BEST10_COUNT
                    (sorted_reverse (dropna (map RoundRatingNum g))))).
Proof.
  intros Hne. unfold ladder_entry. cbn [season_total_best10].
  destruct (take BEST10_COUNT
                 (sorted_reverse (dropna (map RoundRatingNum g))))
    as [|x t] eqn:E; [|reflexivity].
  exfalso. apply Hne.
  assert (Hl : len (take BEST10_COUNT
                      (sorted_reverse (dropna (map RoundRatingNum g)))) = 0)
    by now rewrite E.
  rewrite len_take in Hl by (unfold BEST10_COUNT; lia).
  unfold len, sorted_reverse in Hl. rewrite sorted_length in Hl.
  destruct (dropna (map RoundRatingNum g)); [reflexivity|].
  unfold BEST10_COUNT in Hl. cbn in Hl. lia.
Qed.

Section Ladders.
Variable rt : runtime.

Lemma season_ratings_nonempty (rows : list RawRow) (df : list Row)
      (r : Row) :
  build_frame rt rows = Ok df ->
  In r (rated_df df) ->
  season_ratings df (SeasonLabel r) (Player r) <> [].
Proof.
  intros Hdf Hr Hnil.
  pose proof (build_frame_rows _ _ _ Hdf) as Hall.
  rewrite Forall_forall in Hall.
  pose proof Hr as Hr'. apply filter_In in Hr'. destruct Hr' as [Hin Hra].
  rewrite (fr_rated _ _ _ (Hall r Hin)) in Hra.
  destruct (RoundRatingNum r) as [q|] eqn:Eq; [|discriminate].
  assert (Hq : In q (season_ratings df (SeasonLabel r) (Player r))).
  { unfold season_ratings. apply dropna_In. rewrite <- Eq.
    apply in_map, filter_In. split; [assumption|].
    now apply pair_eqb_eq. }
  rewrite Hnil in Hq. destruct Hq.
Qed.

(** C5.  The total of a ladder entry is the sum of the ratings of the
    group when there are fewer than 10, and with 10 or more the sum of
    10 of them of which none is lower than any rating left out: such a
    choice exists and every such choice has that sum.  A reordering of
    the export rows yields an entry of the same season and player with an
    equal total. *)
Theorem ladder_total_is_best10 (rows : list RawRow) (out : outputs) :
  main rt rows = Ok out ->
  exists df,
    build_frame rt rows = Ok df
    /\ forall e, In e (ladders out) ->
         let rs := season_ratings df (l_season_label e) (l_player e) in
         rs <> []
         /\ exists t,
             season_total_best10 e = Some t
             /\ (len rs < BEST10_COUNT -> (t == sum rs)%Q)
             /\ (BEST10_COUNT <= len rs ->
                 exists hi lo,
                   Permutation rs (hi ++ lo)%list
                   /\ len hi = BEST10_COUNT
                   /\ (forall x y, In x hi -> In y lo -> (y <= x)%Q))
             /\ (forall hi lo,
                   Permutation rs (hi ++ lo)%list ->
                   len hi = BEST10_COUNT ->
                   (forall x y, In x hi -> In y lo -> (y <= x)%Q) ->
                   (t == sum hi)%Q)
             /\ (forall rows',
                   Permutation rows rows' ->
                   exists out' e' t',
                     main rt rows' = Ok out'
                     /\ In e' (ladders out')
                     /\ l_season_label e' = l_season_label e
                     /\ l_player e' = l_player e
                     /\ season_total_best10 e' = Some t'
                     /\ (t' == t)%Q).
Proof.
  intros Hm. destruct (main_inv _ _ _ Hm) as [df [Hdf [_ [Hl _]]]].
  exists df. split; [assumption|]. intros e He.
  rewrite Hl in He. apply build_ladders_In in He.
  destruct He as [r [Hr ->]]. cbn [l_season_label l_player ladder_entry fst snd].
  cbv zeta. fold (season_ratings df (SeasonLabel r) (Player r)).
  pose proof (season_ratings_nonempty _ _ _ Hdf Hr) as Hne.
  split; [assumption|].
  rewrite ladder_entry_total by assumption.
  fold (season_ratings df (SeasonLabel r) (Player r)).
  set (rs := season_ratings df (SeasonLabel r) (Player r)) in *.
  eexists. split; [reflexivity|]. split; [|split; [|split]].
  - intros Hk. rewrite take_all.
    + apply sum_Permutation, sorted_Permutation.
    + unfold len, sorted_reverse. rewrite sorted_length.
      fold (len rs). lia.
  - intros Hk.
    destruct (sorted_reverse_split BEST10_COUNT rs) as [hi [lo H]];
      [unfold BEST10_COUNT; lia|].
    exists hi, lo. destruct H as [H1 [H2 [H3 _]]].
    repeat split; [assumption|lia|assumption].
  - intros hi lo Hp Hlen Hdom.
    now apply (sum_take_sorted_reverse BEST10_COUNT rs hi lo).
  - intros rows' Hp.
    destruct (build_frame_Permutation rt rows rows' df Hp Hdf)
      as [df' [Hdf' Hpd]].
    assert (Hr' : In r (rated_df df')).
    { eapply Permutation_in; [|exact Hr].
      now apply filter_Permutation. }
    pose proof (season_ratings_nonempty _ _ _ Hdf' Hr') as Hne'.
    eexists _, (ladder_entry (SeasonLabel r, Player r) _), _.
    split; [unfold main; rewrite Hdf'; reflexivity|].
    cbn [ladders].
    split; [apply build_ladders_In; exists r; split;
            [exact Hr'|reflexivity]|].
    split; [reflexivity|]. split; [reflexivity|].
    split; [apply ladder_entry_total; exact Hne'|].
    apply sum_Forall2, take_Forall2, sorted_reverse_Permutation.
    apply Permutation_sym.
    apply (season_ratings_Permutation df df' _ _ Hpd).
Qed.
End Ladders.

(** ** Round ids *)

Lemma str_int_inj (a b : Z) : str_int a = str_int b -> a = b.
Proof.
  unfold str_int. intros H.
  assert (Hn : forall z, Z.to_int z <> Decimal.Pos Decimal.Nil
                         /\ Z.to_int z <> Decimal.Neg Decimal.Nil).
  { intros [|p|p]; cbn; split; try discriminate;
      intros E; injection E; apply Unsigned.to_uint_nonnil. }
  apply DecimalZ.to_int_inj.
  assert (Hs : Some (Z.to_int a) = Some (Z.to_int b)).
  { rewrite <- (NilZero.isi (Z.to_int a)) by apply Hn.
    rewrite <- (NilZero.isi (Z.to_int b)) by apply Hn.
    now rewrite H. }
  now injection Hs.
Qed.

Section RoundIds.
Variable rt : runtime.
Variable h : string -> Z.

Lemma derive_row_with_hash (p : ParsedRow) (r : Row) :
  derive_row rt p = Ok r ->
  derive_row (with_hash rt h) p = Ok (rehash rt h r).
Proof.
  unfold derive_row.
  destruct (season_for (dt_date (p_StartDT p))) as [s|]; cbn;
    [|discriminate].
  intros H. injection H as <-. reflexivity.
Qed.

Lemma build_frame_with_hash (rows : list RawRow) (df : list Row) :
  build_frame rt rows = Ok df ->
  build_frame (with_hash rt h) rows = Ok (map (rehash rt h) df).
Proof.
  unfold build_frame.
  change (apply_rows (parse_row (with_hash rt h)) rows)
    with (apply_rows (parse_row rt) rows).
  destruct (apply_rows (parse_row rt) rows) as [parsed|]; cbn;
    [|discriminate].
  generalize (filter keep_row parsed) as l. intros l. revert df.
  induction l as [|p l IH]; intros df; cbn.
  - intros H. injection H as <-. reflexivity.
  - destruct (derive_row rt p) as [r|] eqn:E; cbn; [|discriminate].
    rewrite (derive_row_with_hash _ _ E). cbn.
    destruct (apply_rows (derive_row rt) l) as [rs|]; cbn; [|discriminate].
    intros H. injection H as <-. rewrite (IH rs eq_refl). reflexivity.
Qed.

(** C1 on the code.  The round id of a row is the decimal spelling of
    the absolute value of [hash] on the text made of the player, the
    course key, the raw start and the raw total.  A second run on the
    same export, in a process whose [hash] is [h], builds the same frame
    but for the ids, and the id of a row is the same in both runs exactly
    when the two [hash] functions agree up to sign on the text of the
    row. *)
Theorem round_id_follows_hash (rows : list RawRow) (df : list Row) :
  build_frame rt rows = Ok df ->
  build_frame (with_hash rt h) rows = Ok (map (rehash rt h) df)
  /\ forall r, In r df ->
       id_text rt r
       = Player r ++ "|" ++ CourseKey r ++ "|"
         ++ astype_str rt (StartDate (raw r)) ++ "|"
         ++ astype_str rt (Total (raw r))
       /\ RoundId r = str_int (Z.abs (hash rt (id_text rt r)))
       /\ RoundId (rehash rt h r) = str_int (Z.abs (h (id_text rt r)))
       /\ (RoundId r = RoundId (rehash rt h r) <->
           Z.abs (hash rt (id_text rt r)) = Z.abs (h (id_text rt r))).
Proof.
  intros Hdf. split; [now apply build_frame_with_hash|].
  pose proof (build_frame_rows _ _ _ Hdf) as Hall.
  rewrite Forall_forall in Hall. intros r Hr.
  pose proof (fr_id _ _ _ (Hall r Hr)) as Hid.
  split; [reflexivity|]. split; [assumption|]. split; [reflexivity|].
  rewrite Hid. unfold rehash; cbn [with_round_id RoundId]. split.
  - apply str_int_inj.
  - now intros ->.
Qed.
End RoundIds.

(** C10.  On an odd multiple [(2k+1)/4] of one quarter, [round_half]
    returns the one of the two neighbouring halves [k/2] and [(k+1)/2]
    that is an even number of halves: 0.25 goes to 0 and not to 0.5, 0.75
    goes to 1. *)
Theorem round_half_ties_to_even (x : Q) (k : Z) :
  (x == (2 * k + 1) # 4)%Q ->
  (exists m : Z,
      Z.even m = true /\ (m = k \/ m = k + 1)
      /\ (round_half x == inject_Z m * (1 # 2))%Q)
  /\ (round_half (1 # 4) == 0)%Q /\ ~ (round_half (1 # 4) == 1 # 2)%Q
  /\ (round_half (3 # 4) == 1)%Q.
Proof.
  intros Hx. split.
  - exists (if Z.even k then k else k + 1).
    split; [|split; [|now apply round_half_quarter]].
    + destruct (Z.even k) eqn:E; [assumption|].
      rewrite Z.even_add, E. reflexivity.
    + destruct (Z.even k); auto.
  - repeat split; try reflexivity. intros H. discriminate H.
Qed.

Lemma round_half_ties_to_even_witness :
  (exists m : Z,
      Z.even m = true /\ (m = 2 \/ m = 2 + 1)
      /\ (round_half (5 # 4) == inject_Z m * (1 # 2))%Q)
  /\ (round_half (1 # 4) == 0)%Q /\ ~ (round_half (1 # 4) == 1 # 2)%Q
  /\ (round_half (3 # 4) == 1)%Q.
Proof. apply (round_half_ties_to_even (5 # 4) 2). reflexivity. Defined.

(** ** The sample export *)

Lemma sample_sort_permutes : sort_values_permutes Sample.rt.
Proof.
  intros [] l; cbn; apply sorted_Permutation.
Qed.

Lemma sample_main : main Sample.rt Sample.export = Ok sample_out.
Proof. vm_compute. reflexivity. Qed.

Lemma sample_build_frame :
  build_frame Sample.rt Sample.export = Ok sample_frame.
Proof. vm_compute. reflexivity. Qed.


(** The sample has Miza's five rated rounds and nobody else's: Miza is the
    reference and plays off 0; the others have no handicap yet. *)
Lemma sample_handicaps :
  map (fun e => (h_player e, handicap e, status e)) (handicaps sample_out)
  = [("Armygeddon", None, STATUS_INSUFFICIENT);
     ("Bucis", None, STATUS_INSUFFICIENT);
     ("Jobby", None, STATUS_INSUFFICIENT);
     ("Miza", Some sample_handicap, STATUS_OK);
     ("Youare22", None, STATUS_INSUFFICIENT)]
  /\ (sample_handicap == 0)%Q /\ (sample_form == 940)%Q.
Proof. repeat split. Qed.

(** The alias is resolved, the stranger and nobody with a hole missing or a
    hole too many gets in. *)
Lemma sample_players :
  map Player sample_frame = ["Miza"; "Miza"; "Miza"; "Miza"; "Miza"; "Jobby"]
  /\ build_frame Sample.rt
       [Sample.with_hole (Sample.row "Miza" "2025-12-22 0349" (Num 950))
                         7 NaN;
        Sample.with_hole (Sample.row "Miza" "2025-12-22 0349" (Num 950))
                         19 (Num 3)]
     = Ok [].
Proof. split; vm_compute; reflexivity. Qed.

Lemma round_id_follows_hash_witness :
  build_frame (with_hash Sample.rt Sample.hash_b) Sample.export
  = Ok (map (rehash Sample.rt Sample.hash_b) sample_frame)
  /\ forall r, In r sample_frame ->
       id_text Sample.rt r
       = Player r ++ "|" ++ CourseKey r ++ "|"
         ++ astype_str Sample.rt (StartDate (raw r)) ++ "|"
         ++ astype_str Sample.rt (Total (raw r))
       /\ RoundId r = str_int (Z.abs (hash Sample.rt (id_text Sample.rt r)))
       /\ RoundId (rehash Sample.rt Sample.hash_b r)
          = str_int (Z.abs (Sample.hash_b (id_text Sample.rt r)))
       /\ (RoundId r = RoundId (rehash Sample.rt Sample.hash_b r) <->
           Z.abs (hash Sample.rt (id_text Sample.rt r))
           = Z.abs (Sample.hash_b (id_text Sample.rt r))).
Proof.
  apply (round_id_follows_hash Sample.rt Sample.hash_b Sample.export
                               sample_frame).
  vm_compute. reflexivity.
Defined.

(** Two processes, two salts: every round of the sample gets another id. *)
Lemma sample_round_ids_differ :
  forallb (fun r => negb (String.eqb (RoundId r)
                           (RoundId (rehash Sample.rt Sample.hash_b r))))
          sample_frame
  = true.
Proof. vm_compute. reflexivity. Qed.

Lemma handicap_bounded_witness :
  (- (6) <= sample_handicap /\ sample_handicap <= 6)%Q
  /\ exists m : Z, (sample_handicap == inject_Z m * (1 # 2))%Q.
Proof.
  apply (handicap_bounded Sample.rt Sample.export sample_out
                          (sample_entry "Miza") sample_handicap).
  - vm_compute. reflexivity.
  - vm_compute. tauto.
  - vm_compute. reflexivity.
Defined.

Lemma only_full_rounds_witness :
  exists df,
    build_frame Sample.rt Sample.export = Ok df
    /\ (forall r, In r df ->
        In (raw r) Sample.export /\ complete_round (raw r))
    /\ (forall rec, In rec (rounds sample_out) ->
        exists r, In r df /\ rec = round_record Sample.rt r
                  /\ complete_round (raw r))
    /\ (forall row i,
          ((1 <= i <= 18)%nat /\ Hole row i = NaN)
          \/ ((19 <= i <= 27)%nat /\ Hole row i <> NaN) ->
          ~ In row (map raw df)).
Proof.
  apply (only_full_rounds Sample.rt sample_sort_permutes Sample.export
                          sample_out).
  vm_compute. reflexivity.
Defined.




Lemma lone_player_is_the_reference_witness :
  exists ref h,
    reference_rating (sample_entry "Miza") = Some ref
    /\ (ref == sample_form)%Q
    /\ handicap (sample_entry "Miza") = Some h /\ (h == 0)%Q
    /\ status (sample_entry "Miza") = STATUS_OK.
Proof.
  apply (lone_player_is_the_reference Sample.rt Sample.export sample_out
                                      (sample_entry "Miza") sample_form).
  - vm_compute. reflexivity.
  - vm_compute. tauto.
  - vm_compute. reflexivity.
  - intros e' He' Hne.
    assert (Hl : handicaps sample_out
                 = map sample_entry
                       ["Armygeddon"; "Bucis"; "Jobby"; "Miza"; "Youare22"])
      by (vm_compute; reflexivity).
    rewrite Hl in He'. cbn [map In] in He'.
    destruct He' as [<-|[<-|[<-|[<-|[<-|[]]]]]];
      try (vm_compute; reflexivity).
    exfalso. apply Hne. reflexivity.
Defined.

Lemma ladder_total_is_best10_witness :
  exists df,
    build_frame Sample.rt Sample.export = Ok df
    /\ forall e, In e (ladders sample_out) ->
         let rs := season_ratings df (l_season_label e) (l_player e) in
         rs <> []
         /\ exists t,
             season_total_best10 e = Some t
             /\ (len rs < BEST10_COUNT -> (t == sum rs)%Q)
             /\ (BEST10_COUNT <= len rs ->
                 exists hi lo,
                   Permutation rs (hi ++ lo)%list
                   /\ len hi = BEST10_COUNT
                   /\ (forall x y, In x hi -> In y lo -> (y <= x)%Q))
             /\ (forall hi lo,
                   Permutation rs (hi ++ lo)%list ->
                   len hi = BEST10_COUNT ->
                   (forall x y, In x hi -> In y lo -> (y <= x)%Q) ->
                   (t == sum hi)%Q)
             /\ (forall rows',
                   Permutation Sample.export rows' ->
                   exists out' e' t',
                     main Sample.rt rows' = Ok out'
                     /\ In e' (ladders out')
                     /\ l_season_label e' = l_season_label e
                     /\ l_player e' = l_player e
                     /\ season_total_best10 e' = Some t'
                     /\ (t' == t)%Q).
Proof.
  apply (ladder_total_is_best10 Sample.rt Sample.export sample_out).
  vm_compute. reflexivity.
Defined.

(** Eleven rounds rated 900 to 910: the ladder counts the ten best, 901 to
    910; the form index is the mean of the eight best, 903 to 910. *)
Lemma sample_long_export :
  exists out e h,
    main Sample.rt Sample.long_export = Ok out
    /\ map (fun l => (l_season_label l, l_player l, season_total_best10 l,
                      rated_rounds_in_season l, counted_rounds l))
           (ladders out)
       = [("Summer 2025-26", "Jobby", Some 9055%Q, 11, 10)]
    /\ nth_error (handicaps out) 2 = Some e
    /\ h_player e = "Jobby"
    /\ form_index e = Some (7252 # 8)
    /\ handicap e = Some h /\ (h == 0)%Q.
Proof.
  vm_compute. eexists _, _, _. repeat split.
Qed.

(* ================================================================== *)

(** * Further properties *)

(** ** [first_sunday] and [season_for] *)






Lemma geb_year_lt (a b : Date.date) :
  Date.year b < Date.year a -> Date.geb a b = true.
Proof.
  intros H. unfold Date.geb. rewrite (proj2 (Z.ltb_lt _ _) H). reflexivity.
Qed.

(** X2.  For a date of year 2 or later, with the April and October starts
    of its year: the season is Winter exactly from the April start to the
    day before the October start and Summer otherwise; the label begins
    with the season type; the season start is the ISO form of a first
    Sunday of April or October that is not after the date. *)
Theorem season_for_between_boundaries (d : Date.date) :
  Date.valid d = true -> 2 <= Date.year d ->
  exists apr oct s st,
    first_sunday (Date.year d) 4 = Ok apr
    /\ first_sunday (Date.year d) 10 = Ok oct
    /\ season_for d = Ok s
    /\ (season_type s = "Winter" <->
        Date.geb d apr = true /\ Date.geb d oct = false)
    /\ (season_type s = "Summer" <->
        Date.geb d oct = true \/ Date.geb d apr = false)
    /\ season_start s = Date.isoformat st
    /\ Date.geb d st = true
    /\ (is_first_sunday (Date.year st) 4 st = true
        \/ is_first_sunday (Date.year st) 10 st = true)
    /\ exists rest, season_label s = season_type s ++ " " ++ rest.
Proof.
  intros Hv H2. pose proof (valid_year d Hv) as HY.
  destruct (boundary_facts (Date.year d) 4 HY (or_introl eq_refl))
    as [apr [Ha [Hfa _]]].
  destruct (boundary_facts (Date.year d) 10 HY (or_intror eq_refl))
    as [oct [Ho [Hfo _]]].
  destruct (boundary_facts (Date.year d - 1) 10) as [po [Hp [Hfp _]]];
    [lia|now right|].
  pose proof (is_first_sunday_inv _ _ _ Hfa) as [Hya [Hma _]].
  pose proof (is_first_sunday_inv _ _ _ Hfo) as [Hyo [Hmo _]].
  pose proof (is_first_sunday_inv _ _ _ Hfp) as [Hyp _].
  exists apr, oct.
  rewrite (season_for_unfold d apr oct Ha Ho).
  destruct (Date.geb d oct) eqn:Eo; [|destruct (Date.geb d apr) eqn:Eapr].
  - eexists _, oct. split; [exact Ha|]. split; [exact Ho|].
    split; [reflexivity|]. cbn.
    split; [split; [discriminate|intros [_ H]; discriminate]|].
    split; [split; auto|].
    split; [reflexivity|]. split; [assumption|].
    split; [right; now rewrite Hyo|]. eexists. reflexivity.
  - eexists _, apr. split; [exact Ha|]. split; [exact Ho|].
    split; [reflexivity|]. cbn.
    split; [split; auto|].
    split; [split; [discriminate|intros [H|H]; discriminate]|].
    split; [reflexivity|]. split; [assumption|].
    split; [left; now rewrite Hya|]. eexists. reflexivity.
  - rewrite Hp. eexists _, po. split; [exact Ha|]. split; [exact Ho|].
    split; [reflexivity|]. cbn.
    split; [split; [discriminate|intros [H _]; discriminate]|].
    split; [split; auto|].
    split; [reflexivity|].
    split; [apply geb_year_lt; lia|].
    split; [right; now rewrite Hyp|]. eexists. reflexivity.
Qed.

Lemma season_for_between_boundaries_witness :
  exists apr oct s st,
    first_sunday 2025 4 = Ok apr
    /\ first_sunday 2025 10 = Ok oct
    /\ season_for (Date.mk 2025 3 1) = Ok s
    /\ (season_type s = "Winter" <->
        Date.geb (Date.mk 2025 3 1) apr = true
        /\ Date.geb (Date.mk 2025 3 1) oct = false)
    /\ (season_type s = "Summer" <->
        Date.geb (Date.mk 2025 3 1) oct = true
        \/ Date.geb (Date.mk 2025 3 1) apr = false)
    /\ season_start s = Date.isoformat st
    /\ Date.geb (Date.mk 2025 3 1) st = true
    /\ (is_first_sunday (Date.year st) 4 st = true
        \/ is_first_sunday (Date.year st) 10 st = true)
    /\ exists rest, season_label s = season_type s ++ " " ++ rest.
Proof.
  apply (season_for_between_boundaries (Date.mk 2025 3 1)).
  - reflexivity.
  - cbn. lia.
Defined.

(** ** Names and timestamps *)







(** ** Which runs complete, and with which rounds *)


Lemma apply_rows_cases {A B : Type} (f : A -> result B) (l : list A) :
  (exists l', apply_rows f l = Ok l')
  \/ (exists a e, In a l /\ f a = Raise e /\ apply_rows f l = Raise e).
Proof.
  induction l as [|a l IH]; cbn.
  - left. now eexists.
  - destruct (f a) as [b|e] eqn:E; cbn.
    + destruct IH as [[l' ->]|[a' [e [Hin [Hf ->]]]]]; cbn.
      * left. now eexists.
      * right. exists a', e. auto.
    + right. exists a, e. auto.
Qed.






Section KeptRows.
Variable rt : runtime.
Hypothesis sort_ok : sort_values_permutes rt.

End KeptRows.

(** ** Groups, ladders and player summaries *)



Section Partition.
Context {K : Type} (eqb : K -> K -> bool) (key : Row -> K).
Hypothesis eqb_eq : forall a b, eqb a b = true <-> a = b.


End Partition.







Lemma build_players_In (df : list Row) (s : PlayerSummary) :
  In s (build_players df) <->
  exists r, In r df
            /\ s = player_summary (Player r)
                     (filter (fun r' => String.eqb (Player r') (Player r)) df).
Proof.
  unfold build_players. rewrite in_map_iff. split.
  - intros [[k g] [<- H]]. apply (groupby_In _ _ _ String.eqb_eq) in H.
    destruct H as [Hk ->]. apply in_map_iff in Hk.
    destruct Hk as [r [<- Hr]]. exists r. split; [assumption|reflexivity].
  - intros [r [Hr ->]].
    eexists (_, _). split; [reflexivity|].
    apply (groupby_In _ _ _ String.eqb_eq). split; [|reflexivity].
    now apply in_map.
Qed.

Lemma ladder_keys (df : list Row) :
  map (fun e => (l_season_label e, l_player e)) (build_ladders df)
  = map fst (groupby pair_eqb pair_leb (fun r => (SeasonLabel r, Player r))
                     (rated_df df)).
Proof.
  unfold build_ladders. rewrite map_map. apply map_ext.
  intros [[s p] g]. reflexivity.
Qed.


Section Outputs.
Variable rt : runtime.
Hypothesis sort_ok : sort_values_permutes rt.

(** X7.  Every record of the four documents names a tracked player: the
    membership filter holds for rounds.json, ladders.json, players.json
    and handicaps.json alike, so the alias "Misa" appears in none. *)
Theorem outputs_name_tracked_players (rows : list RawRow) (out : outputs) :
  main rt rows = Ok out ->
  (forall rec, In rec (rounds out) ->
     In (player rec) TRACKED_PLAYERS /\ player rec <> "Misa")
  /\ (forall e, In e (ladders out) ->
        In (l_player e) TRACKED_PLAYERS /\ l_player e <> "Misa")
  /\ (forall e, In e (handicaps out) ->
        In (h_player e) TRACKED_PLAYERS /\ h_player e <> "Misa")
  /\ (forall s, In s (players out) ->
        In (s_player s) TRACKED_PLAYERS /\ s_player s <> "Misa").
Proof.
  intros Hm.
  destruct (main_inv _ _ _ Hm) as [df [Hdf [Hr [Hl [Hh Hp]]]]].
  pose proof (build_frame_rows _ _ _ Hdf) as Hall.
  rewrite Forall_forall in Hall.
  assert (Htr : forall r, In r df -> In (Player r) TRACKED_PLAYERS).
  { intros r Hin. apply isin_In, (fr_tracked _ _ _ (Hall r Hin)). }
  assert (Hno : forall p, In p TRACKED_PLAYERS -> p <> "Misa").
  { intros p Hin ->. cbn in Hin. intuition discriminate. }
  assert (Hboth : forall p, In p TRACKED_PLAYERS ->
                  In p TRACKED_PLAYERS /\ p <> "Misa") by auto.
  repeat split; try apply Hno.
  - rewrite Hr in H. apply (build_rounds_In rt sort_ok) in H.
    destruct H as [r [Hin ->]]. now apply Htr.
  - rewrite Hr in H. apply (build_rounds_In rt sort_ok) in H.
    destruct H as [r [Hin ->]]. now apply Htr.
  - rewrite Hl in H. apply build_ladders_In in H.
    destruct H as [r [Hin ->]]. apply filter_In in Hin. now apply Htr.
  - rewrite Hl in H. apply build_ladders_In in H.
    destruct H as [r [Hin ->]]. apply filter_In in Hin. now apply Htr.
  - rewrite Hh in H. now apply build_handicaps_In in H.
  - rewrite Hh in H. now apply build_handicaps_In in H.
  - rewrite Hp in H. apply build_players_In in H.
    destruct H as [r [Hin ->]]. now apply Htr.
  - rewrite Hp in H. apply build_players_In in H.
    destruct H as [r [Hin ->]]. now apply Htr.
Qed.
End Outputs.

Section LadderEntries.
Variable rt : runtime.


(** X9.  ladders.json has one entry for every pair of a season and a
    player with a rated round in the frame, and no two entries for one
    pair. *)
Theorem ladder_entries_are_the_groups (rows : list RawRow) (out : outputs) :
  main rt rows = Ok out ->
  exists df,
    build_frame rt rows = Ok df
    /\ NoDup (map (fun e => (l_season_label e, l_player e)) (ladders out))
    /\ forall s p,
         In (s, p) (map (fun e => (l_season_label e, l_player e))
                        (ladders out))
         <-> exists r, In r df /\ IsRated r = true
                       /\ SeasonLabel r = s /\ Player r = p.
Proof.
  intros Hm. destruct (main_inv _ _ _ Hm) as [df [Hdf [_ [Hl _]]]].
  exists df. split; [assumption|]. rewrite Hl, ladder_keys. split.
  - apply groupby_keys_NoDup, pair_eqb_eq.
  - intros s p. rewrite groupby_keys, sorted_In.
    rewrite (unique_In pair_eqb pair_eqb_eq), in_map_iff. split.
    + intros [r [E Hr]]. injection E as <- <-.
      apply filter_In in Hr. exists r. tauto.
    + intros [r [Hr [Hra [<- <-]]]]. exists r. split; [reflexivity|].
      apply filter_In. auto.
Qed.

End LadderEntries.

(** ** [round] and [round_half] *)

Lemma Qfloor_bounds (x : Q) :
  (inject_Z (Qfloor x) <= x)%Q /\ (x < inject_Z (Qfloor x) + 1)%Q.
Proof.
  split; [apply Qfloor_le|].
  pose proof (Qlt_floor x) as H. rewrite inject_Z_plus in H. exact H.
Qed.

Lemma py_round_nearest (x : Q) : nearest_even x (py_round x).
Proof.
  unfold nearest_even, py_round.
  destruct (Qfloor_bounds x) as [H1 H2].
  set (f := Qfloor x) in *.
  destruct (Qcompare (x - inject_Z f) (1 # 2)) eqn:E.
  - apply Qeq_alt in E.
    destruct (Z.even f) eqn:Ef.
    + split; [lra|]. split; [lra|]. intros _.
      first [reflexivity | assumption].
    + rewrite inject_Z_plus. change (inject_Z 1) with 1%Q.
      repeat split; try lra. intros _.
      rewrite Z.even_add, Ef. reflexivity.
  - apply Qlt_alt in E.
    repeat split; try lra; try (intros [H|H]; exfalso; lra).
  - apply Qgt_alt in E. rewrite inject_Z_plus. change (inject_Z 1) with 1%Q.
    repeat split; try lra; try (intros [H|H]; exfalso; lra).
Qed.




Lemma py_round_mono (x y : Q) : (x <= y)%Q -> py_round x <= py_round y.
Proof.
  intros Hxy.
  destruct (py_round_nearest x) as [H1 [H2 H3]].
  destruct (py_round_nearest y) as [H4 [H5 H6]].
  destruct (Z_le_gt_dec (py_round x) (py_round y)) as [|Hgt];
    [assumption|exfalso].
  assert (Hq : (inject_Z (py_round y) + 1 <= inject_Z (py_round x))%Q).
  { change 1%Q with (inject_Z 1). rewrite <- inject_Z_plus, <- Zle_Qle. lia. }
  assert (Hn : py_round x = py_round y + 1).
  { assert (Hle : (inject_Z (py_round x) <= inject_Z (py_round y + 1))%Q).
    { rewrite inject_Z_plus. change (inject_Z 1) with 1%Q. lra. }
    rewrite <- Zle_Qle in Hle. lia. }
  assert (E1 : Z.even (py_round x) = true) by (apply H3; right; lra).
  assert (E2 : Z.even (py_round y) = true) by (apply H6; left; lra).
  rewrite Hn, Z.even_add, E2 in E1. discriminate.
Qed.

Lemma round_half_mono (x y : Q) :
  (x <= y)%Q -> (round_half x <= round_half y)%Q.
Proof.
  intros H. rewrite !round_half_multiple.
  assert (Hr : py_round (x * 2) <= py_round (y * 2))
    by (apply py_round_mono; lra).
  rewrite Zle_Qle in Hr. lra.
Qed.

Lemma round_half_within_quarter (x : Q) :
  (x - (1 # 4) <= round_half x)%Q /\ (round_half x <= x + (1 # 4))%Q.
Proof.
  destruct (py_round_nearest (x * 2)) as [H1 [H2 _]].
  rewrite round_half_multiple. split; lra.
Qed.




(** ** The handicap engine *)

Lemma clamp_cases (v : Q) :
  ((v <= - (6))%Q /\ clamp v = (- HANDICAP_CAP)%Q)
  \/ ((- (6) < v)%Q /\ (v < 6)%Q /\ clamp v = v)
  \/ ((6 <= v)%Q /\ clamp v = HANDICAP_CAP).
Proof.
  unfold clamp, py_max, py_min, HANDICAP_CAP.
  destruct (Qlt_bool v 6) eqn:E1.
  - apply Qlt_bool_iff in E1.
    destruct (Qlt_bool (- (6)) v) eqn:E2.
    + apply Qlt_bool_iff in E2. right. left. auto.
    + apply Qlt_bool_false in E2. left. auto.
  - apply Qlt_bool_false in E1. right. right.
    split; [assumption|reflexivity].
Qed.

Lemma clamp_mono (v1 v2 : Q) : (v1 <= v2)%Q -> (clamp v1 <= clamp v2)%Q.
Proof.
  intros H.
  destruct (clamp_cases v1) as [[H1 ->]|[[H1 [H1' ->]]|[H1 ->]]];
    destruct (clamp_cases v2) as [[H2 ->]|[[H2 [H2' ->]]|[H2 ->]]];
    unfold HANDICAP_CAP; lra.
Qed.

Lemma clamp_near (v : Q) :
  ((- (6) <= v)%Q -> (v <= 6)%Q -> (clamp v == v)%Q)
  /\ ((6 <= v)%Q -> (clamp v == 6)%Q)
  /\ ((v <= - (6))%Q -> (clamp v == - (6))%Q).
Proof.
  destruct (clamp_cases v) as [[H1 ->]|[[H1 [H1' ->]]|[H1 ->]]];
    unfold HANDICAP_CAP; repeat split; intros; lra.
Qed.

Lemma handicap_entry_ok pf ref p h :
  handicap (handicap_entry pf ref p) = Some h ->
  exists r f,
    ref = Some r /\ dict_get pf p = Some f
    /\ h = clamp (round_half ((r - f) / HANDICAP_POINTS_PER_STROKE))
    /\ form_index (handicap_entry pf ref p) = Some f
    /\ reference_rating (handicap_entry pf ref p) = Some r
    /\ status (handicap_entry pf ref p) = STATUS_OK.
Proof.
  unfold handicap_entry. destruct ref as [r|]; [|discriminate].
  destruct (dict_get pf p) as [f|]; [|discriminate].
  cbn. intros H. injection H as <-. exists r, f. repeat split.
Qed.

Lemma round_half_zero : (round_half 0 == 0)%Q.
Proof. reflexivity. Qed.

Lemma round_half_six :
  (round_half 6 == 6)%Q /\ (round_half (- (6)) == - (6))%Q.
Proof. split; reflexivity. Qed.

Section Engine.
Variable rt : runtime.

Lemma handicap_of_entry (rows : list RawRow) (out : outputs)
      (e : HandicapEntry) (h : Q) :
  main rt rows = Ok out -> In e (handicaps out) -> handicap e = Some h ->
  exists df r f,
    build_frame rt rows = Ok df
    /\ reference (player_form rt df) = Some r
    /\ form_index e = Some f /\ reference_rating e = Some r
    /\ status e = STATUS_OK
    /\ h = clamp (round_half ((r - f) / HANDICAP_POINTS_PER_STROKE)).
Proof.
  intros Hm He Hh. destruct (handicaps_inv _ _ _ Hm) as [df [Hdf Hout]].
  rewrite Hout in He. apply build_handicaps_In in He.
  destruct He as [_ He]. rewrite He in Hh.
  destruct (handicap_entry_ok _ _ _ _ Hh) as [r [f [H1 [H2 [H3 [H4 [H5 H6]]]]]]].
  exists df, r, f. rewrite He. auto 10.
Qed.

(** X13.  Between two players with a handicap, the one with the higher
    form index never has the higher handicap. *)
Theorem better_form_lower_handicap (rows : list RawRow) (out : outputs)
        (e1 e2 : HandicapEntry) (f1 f2 h1 h2 : Q) :
  main rt rows = Ok out ->
  In e1 (handicaps out) -> In e2 (handicaps out) ->
  form_index e1 = Some f1 -> form_index e2 = Some f2 ->
  handicap e1 = Some h1 -> handicap e2 = Some h2 ->
  (f1 <= f2)%Q -> (h2 <= h1)%Q.
Proof.
  intros Hm He1 He2 Hf1 Hf2 Hh1 Hh2 Hle.
  destruct (handicap_of_entry _ _ _ _ Hm He1 Hh1)
    as [df [r [f [Hdf [Hr [Hf [_ [_ ->]]]]]]]].
  destruct (handicap_of_entry _ _ _ _ Hm He2 Hh2)
    as [df' [r' [f' [Hdf' [Hr' [Hf' [_ [_ ->]]]]]]]].
  rewrite Hdf in Hdf'. injection Hdf' as <-.
  rewrite Hr in Hr'. injection Hr' as <-.
  rewrite Hf1 in Hf. injection Hf as <-.
  rewrite Hf2 in Hf'. injection Hf' as <-.
  apply clamp_mono, round_half_mono.
  unfold HANDICAP_POINTS_PER_STROKE.
  apply Qmult_le_compat_r; [lra|]. discriminate.
Qed.

(** X14.  A handicap follows the differential (reference minus form
    index, over 10 points a stroke): within the cap it is within a quarter
    stroke of it, beyond the cap it is the cap; a form index at or above
    the reference gives a handicap of at most 0, one at or below it a
    handicap of at least 0. *)
Theorem handicap_follows_differential (rows : list RawRow) (out : outputs)
        (e : HandicapEntry) (h : Q) :
  main rt rows = Ok out ->
  In e (handicaps out) ->
  handicap e = Some h ->
  exists r f,
    reference_rating e = Some r /\ form_index e = Some f
    /\ let raw := ((r - f) / 10)%Q in
       ((- (6) <= raw)%Q -> (raw <= 6)%Q ->
        (raw - (1 # 4) <= h)%Q /\ (h <= raw + (1 # 4))%Q)
       /\ ((6 <= raw)%Q -> (h == 6)%Q)
       /\ ((raw <= - (6))%Q -> (h == - (6))%Q)
       /\ ((r <= f)%Q -> (h <= 0)%Q)
       /\ ((f <= r)%Q -> (0 <= h)%Q).
Proof.
  intros Hm He Hh.
  destruct (handicap_of_entry _ _ _ _ Hm He Hh)
    as [df [r [f [_ [_ [Hf [Hr [_ ->]]]]]]]].
  exists r, f. split; [assumption|]. split; [assumption|].
  unfold HANDICAP_POINTS_PER_STROKE.
  change (inject_Z 10) with 10%Q.
  set (raw := ((r - f) / 10)%Q).
  pose proof (round_half_within_quarter raw) as [Hlo Hhi].
  destruct round_half_six as [H6 H6'].
  destruct (clamp_near (round_half raw)) as [Hin [Hup Hdn]].
  cbv zeta. split; [|split; [|split; [|split]]].
  - intros H1 H2.
    assert (Ha : (- (6) <= round_half raw)%Q)
      by (rewrite <- H6'; now apply round_half_mono).
    assert (Hb : (round_half raw <= 6)%Q)
      by (rewrite <- H6; now apply round_half_mono).
    rewrite (Hin Ha Hb). split; assumption.
  - intros H1. apply Hup. rewrite <- H6. now apply round_half_mono.
  - intros H1. apply Hdn. rewrite <- H6'. now apply round_half_mono.
  - intros H1.
    assert (Hraw : (raw <= 0)%Q).
    { unfold raw. apply Qle_shift_div_r; lra. }
    assert (Hc : (clamp (round_half raw) <= clamp (round_half 0))%Q)
      by now apply clamp_mono, round_half_mono.
    assert (Hz : (clamp (round_half 0) == 0)%Q) by reflexivity.
    lra.
  - intros H1.
    assert (Hraw : (0 <= raw)%Q).
    { unfold raw. apply Qle_shift_div_l; lra. }
    assert (Hc : (clamp (round_half 0) <= clamp (round_half raw))%Q)
      by now apply clamp_mono, round_half_mono.
    assert (Hz : (clamp (round_half 0) == 0)%Q) by reflexivity.
    lra.
Qed.
End Engine.




Section ReferenceRating.
Variable rt : runtime.


End ReferenceRating.


Section FormIndex.
Variable rt : runtime.
Hypothesis sort_ok : sort_values_permutes rt.







End FormIndex.

(** ** Seasons of the rounds *)

Lemma season_for_shape (d : Date.date) (s : season) :
  season_for d = Ok s ->
  (season_type s = "Summer" \/ season_type s = "Winter")
  /\ exists rest, season_label s = season_type s ++ " " ++ rest.
Proof.
  unfold season_for.
  destruct (first_sunday (Date.year d) 4) as [apr|]; [|discriminate].
  destruct (first_sunday (Date.year d) 10) as [oct|]; [|discriminate].
  cbn.
  destruct (Date.geb d oct); [|destruct (Date.geb d apr)].
  - intros H. injection H as <-. cbn. split; [now left|now eexists].
  - intros H. injection H as <-. cbn. split; [now right|now eexists].
  - destruct (first_sunday (Date.year d - 1) 10) as [po|]; [|discriminate].
    cbn. intros H. injection H as <-. cbn. split; [now left|now eexists].
Qed.

Section RoundSeasons.
Variable rt : runtime.
Hypothesis sort_ok : sort_values_permutes rt.

(** X18.  Every record of rounds.json carries the season of the date of
    its parsed start: the type is Summer or Winter and the label begins
    with the type; every ladder entry carries the label of a rated round
    of its player. *)
Theorem rounds_carry_their_season (rows : list RawRow) (out : outputs) :
  main rt rows = Ok out ->
  (forall rec, In rec (rounds out) ->
     (r_season_type rec = "Summer" \/ r_season_type rec = "Winter")
     /\ (exists rest, r_season_label rec = r_season_type rec ++ " " ++ rest)
     /\ exists row t,
          In row rows
          /\ parse_udisc_dt rt (StartDate row) = Ok t
          /\ start rec = datetime_isoformat t
          /\ classify (dt_date t)
             = Ok (r_season_type rec, r_season_label rec))
  /\ (forall e, In e (ladders out) ->
        exists rec, In rec (rounds out) /\ is_rated rec = true
                    /\ player rec = l_player e
                    /\ r_season_label rec = l_season_label e).
Proof.
  intros Hm.
  destruct (main_inv _ _ _ Hm) as [df [Hdf [Hr [Hl _]]]].
  pose proof (build_frame_rows _ _ _ Hdf) as Hall.
  rewrite Forall_forall in Hall. split.
  - intros rec Hrec. rewrite Hr in Hrec.
    apply (build_rounds_In rt sort_ok) in Hrec.
    destruct Hrec as [r [Hin ->]]. specialize (Hall r Hin).
    cbn [round_record r_season_type r_season_label start].
    pose proof (fr_season _ _ _ Hall) as Hs. unfold classify in Hs.
    destruct (season_for (dt_date (StartDT r))) as [s|] eqn:E;
      [|discriminate].
    cbn in Hs. injection Hs as Ht Hlab.
    destruct (season_for_shape _ _ E) as [H1 H2].
    rewrite <- Ht, <- Hlab. split; [assumption|]. split; [assumption|].
    exists (raw r), (StartDT r).
    split; [apply (fr_raw _ _ _ Hall)|].
    split; [apply (fr_start _ _ _ Hall)|]. split; [reflexivity|].
    unfold classify. rewrite E. reflexivity.
  - intros e He. rewrite Hl in He. apply build_ladders_In in He.
    destruct He as [r [Hrr ->]]. apply filter_In in Hrr.
    destruct Hrr as [Hin Hra].
    exists (round_record rt r). split.
    + rewrite Hr. apply (build_rounds_In rt sort_ok). now exists r.
    + cbn. auto.
Qed.
End RoundSeasons.

(** ** The sample exports, again *)



Lemma outputs_name_tracked_players_witness :
  (forall rec, In rec (rounds sample_out) ->
     In (player rec) TRACKED_PLAYERS /\ player rec <> "Misa")
  /\ (forall e, In e (ladders sample_out) ->
        In (l_player e) TRACKED_PLAYERS /\ l_player e <> "Misa")
  /\ (forall e, In e (handicaps sample_out) ->
        In (h_player e) TRACKED_PLAYERS /\ h_player e <> "Misa")
  /\ (forall s, In s (players sample_out) ->
        In (s_player s) TRACKED_PLAYERS /\ s_player s <> "Misa").
Proof.
  apply (outputs_name_tracked_players Sample.rt sample_sort_permutes
                                      Sample.export sample_out).
  vm_compute. reflexivity.
Defined.


Lemma ladder_entries_are_the_groups_witness :
  exists df,
    build_frame Sample.rt Sample.export = Ok df
    /\ NoDup (map (fun e => (l_season_label e, l_player e))
                  (ladders sample_out))
    /\ forall s p,
         In (s, p) (map (fun e => (l_season_label e, l_player e))
                        (ladders sample_out))
         <-> exists r, In r df /\ IsRated r = true
                       /\ SeasonLabel r = s /\ Player r = p.
Proof.
  apply (ladder_entries_are_the_groups Sample.rt Sample.export sample_out).
  vm_compute. reflexivity.
Defined.



(** Jobby's form index is 897 and Miza's 940: the reference is 918.5 and
    the handicaps are 2 and -2. *)
Lemma duel_handicaps :
  main Sample.rt duel_export = Ok duel_out
  /\ map (fun e => (h_player e, form_index e, reference_rating e, handicap e))
         (handicaps duel_out)
     = [("Armygeddon", None, Some (45925 # 50), None);
        ("Bucis", None, Some (45925 # 50), None);
        ("Jobby", Some (4485 # 5), Some (45925 # 50), Some (4 # 2));
        ("Miza", Some (4700 # 5), Some (45925 # 50), Some (-4 # 2));
        ("Youare22", None, Some (45925 # 50), None)].
Proof. split; vm_compute; reflexivity. Qed.

Lemma better_form_lower_handicap_witness : (-4 # 2 <= 4 # 2)%Q.
Proof.
  apply (better_form_lower_handicap Sample.rt duel_export duel_out
           (duel_entry "Jobby") (duel_entry "Miza")
           (4485 # 5) (4700 # 5) (4 # 2) (-4 # 2)).
  - vm_compute. reflexivity.
  - vm_compute. tauto.
  - vm_compute. tauto.
  - reflexivity.
  - reflexivity.
  - reflexivity.
  - reflexivity.
  - vm_compute. discriminate.
Defined.

Lemma handicap_follows_differential_witness :
  exists r f,
    reference_rating (duel_entry "Jobby") = Some r
    /\ form_index (duel_entry "Jobby") = Some f
    /\ let raw := ((r - f) / 10)%Q in
       ((- (6) <= raw)%Q -> (raw <= 6)%Q ->
        (raw - (1 # 4) <= 4 # 2)%Q /\ (4 # 2 <= raw + (1 # 4))%Q)
       /\ ((6 <= raw)%Q -> (4 # 2 == 6)%Q)
       /\ ((raw <= - (6))%Q -> (4 # 2 == - (6))%Q)
       /\ ((r <= f)%Q -> (4 # 2 <= 0)%Q)
       /\ ((f <= r)%Q -> (0 <= 4 # 2)%Q).
Proof.
  apply (handicap_follows_differential Sample.rt duel_export duel_out
           (duel_entry "Jobby") (4 # 2)).
  - vm_compute. reflexivity.
  - vm_compute. tauto.
  - reflexivity.
Defined.




Lemma rounds_carry_their_season_witness :
  (forall rec, In rec (rounds sample_out) ->
     (r_season_type rec = "Summer" \/ r_season_type rec = "Winter")
     /\ (exists rest, r_season_label rec = r_season_type rec ++ " " ++ rest)
     /\ exists row t,
          In row Sample.export
          /\ parse_udisc_dt Sample.rt (StartDate row) = Ok t
          /\ start rec = datetime_isoformat t
          /\ classify (dt_date t)
             = Ok (r_season_type rec, r_season_label rec))
  /\ (forall e, In e (ladders sample_out) ->
        exists rec, In rec (rounds sample_out) /\ is_rated rec = true
                    /\ player rec = l_player e
                    /\ r_season_label rec = l_season_label e).
Proof.
  apply (rounds_carry_their_season Sample.rt sample_sort_permutes
                                   Sample.export sample_out).
  vm_compute. reflexivity.
Defined.
